(** * Edra rename scripts: literal search-and-replace over a fixed table

  Shallow embedding of [scripts/rename-edra-to-kebab.py] (the Renamer)
  and [scripts/fix-edra-imports.py] (the Import Fixer).

  Layout:
  - [Text]: Python's [str.replace], [in] and [startswith] on sequences
    of characters;
  - [Str]: the same operations on [string];
  - [Dict]: insertion-ordered dictionaries;
  - [Os]: the slice of the operating system the scripts touch, as a
    state-and-exception monad over a world;
  - the tables [RENAMES], [replacements] and [IMPORT_REPLACEMENTS],
    verbatim, and the two [main] procedures in [Renamer] and [Fixer];
  - the vocabulary of the properties;
  - facts about the text operations, the loops and the runs;
  - the properties.

  Modelling choices. The tree of the world holds regular files whose
  contents are text, by absolute name; directories are implicit. What
  [git mv] answers and whether the system refuses a rename are inputs
  ([Os.env]). The order in which [rglob] yields the files is the order
  of the elements of a finite set; no property depends on it. *)

From Stdlib Require Import Ascii String DecimalString.
From stdpp Require Import gmap strings list.

Local Open Scope list_scope.

(** ** Character sequences *)

Module Text.
Section text.
Context {A : Type} `{EqDecision A}.
Implicit Types (s old new k : list A).

(** [s.startswith(p)] *)
Fixpoint startswith (p s : list A) : bool :=
  match p, s with
  | [], _ => true
  | _ :: _, [] => false
  | a :: p', b :: s' => bool_decide (a = b) && startswith p' s'
  end.

(** [old in s]: some position of [s] starts with [old]. *)
Fixpoint contains (old s : list A) : bool :=
  match s with
  | [] => startswith old []
  | _ :: s' => startswith old s || contains old s'
  end.

(** The scan of [s.replace(old, new)] for a non-empty [old]: left to
    right, a match emits [new] and resumes after the match ([skip]
    counts the characters of the match still to pass over), any other
    character is copied. *)
Fixpoint replace_scan (old new : list A) (skip : nat) (s : list A) : list A :=
  match s with
  | [] => []
  | c :: s' =>
      match skip with
      | S n => replace_scan old new n s'
      | O =>
          if startswith old s
          then new ++ replace_scan old new (length old - 1) s'
          else c :: replace_scan old new 0 s'
      end
  end.

(** [s.replace(old, new)]. An empty [old] matches before every
    character and at the end. *)
Definition replace (s old new : list A) : list A :=
  match old with
  | [] => new ++ flat_map (fun c => c :: new) s
  | _ :: _ => replace_scan old new 0 s
  end.

(** [k] occurs in [s] as a contiguous block. *)
Definition infix (k s : list A) : Prop := exists a b, s = a ++ k ++ b.

(** Neither sequence is a prefix of the other. *)
Definition apart (x y : list A) : bool :=
  negb (startswith x y || startswith y x).

(** No occurrence of [k] can share a character with an inserted [new]:
    whatever position of [new] the occurrence would start at, and
    whatever position of [k] would fall on the start of [new], the two
    disagree on a character they both have. *)
Definition clear_of (k new : list A) : bool :=
  forallb (fun j => apart (drop j new) k) (seq 0 (length new))
  && forallb (fun i => apart (drop i k) new) (seq 0 (length k)).

(** The two halves of [clear_of], as statements: every non-empty tail
    of [new] is apart from [k], and every non-empty tail of [k] is apart
    from [new]. *)
Definition tail_of_new_apart (k new : list A) : Prop :=
  forall n1 n2, new = n1 ++ n2 -> n2 <> [] -> apart n2 k = true.
Definition tail_of_key_apart (new k : list A) : Prop :=
  forall k1 k2, k = k1 ++ k2 -> k2 <> [] -> apart k2 new = true.

End text.
End Text.

(** ** Python strings *)

(** A [str] is modelled by [string]; the operations go through the
    character sequence. *)
Module Str.

Definition chars (s : string) : list ascii := list_ascii_of_string s.
Definition of_chars (l : list ascii) : string := string_of_list_ascii l.

(** [s.replace(old, new)] *)
Definition replace (s old new : string) : string :=
  of_chars (Text.replace (chars s) (chars old) (chars new)).

(** [old in s] *)
Definition contains (old s : string) : bool :=
  Text.contains (chars old) (chars s).

Definition startswith (p s : string) : bool :=
  Text.startswith (chars p) (chars s).

Definition endswith (p s : string) : bool :=
  Text.startswith (rev (chars p)) (rev (chars s)).

(** [k] occurs in [s] as a literal substring. *)
Definition infix (k s : string) : Prop := exists a b, s = a +:+ k +:+ b.

(** [s] with the leading [p] removed, when [s] starts with [p]. *)
Fixpoint strip_prefix (p s : string) : option string :=
  match p with
  | EmptyString => Some s
  | String a p' =>
      match s with
      | EmptyString => None
      | String b s' => if Ascii.eqb a b then strip_prefix p' s' else None
      end
  end.

(** [Text.clear_of] on strings. *)
Definition clear_of (k new : string) : bool :=
  Text.clear_of (chars k) (chars new).

(** [str(n)] for a count. *)
Definition of_nat (n : nat) : string := NilEmpty.string_of_uint (Nat.to_uint n).

(** The line feed of ["\n"]. *)
Definition nl : string := String (ascii_of_nat 10) EmptyString.

End Str.

(** ** Python dictionaries, as far as the scripts use them *)

(** A [dict] keeps its keys in insertion order; a key written twice in a
    literal keeps its first position and takes the last value. *)
Module Dict.

Fixpoint set (d : list (string * string)) (k v : string) : list (string * string) :=
  match d with
  | [] => [(k, v)]
  | (k', v') :: d' =>
      if String.eqb k' k then (k', v) :: d' else (k', v') :: set d' k v
  end.

(** [{k1: v1, k2: v2, ...}] *)
Definition literal (entries : list (string * string)) : list (string * string) :=
  fold_left (fun d e => set d (fst e) (snd e)) entries [].

(** [d.items()] *)
Definition items (d : list (string * string)) : list (string * string) := d.

End Dict.

(** ** The slice of the operating system the scripts touch *)

Module Os.

(** [pathlib.PurePosixPath]: the anchor and the components. *)
Record Path := { absolute : bool; parts : list string }.

(** [p.parent]: the last component is dropped; a path without
    components is its own parent. *)
Definition parent (p : Path) : Path :=
  {| absolute := absolute p; parts := removelast (parts p) |}.

Fixpoint join (sep : string) (l : list string) : string :=
  match l with
  | [] => EmptyString
  | [x] => x
  | x :: l' => x +:+ sep +:+ join sep l'
  end.

(** The external commands and failures the model does not compute. *)
Inductive git_result :=
| GitMoved          (* exit status 0: the file was moved *)
| GitExitNonZero    (* the command ran and exited with an error *)
| GitNotStarted.    (* the executable could not be launched *)

Inductive exn :=
| CalledProcessError  (* [subprocess.run(..., check=True)], exit status not 0 *)
| OSError.            (* launching a process or a file operation failed *)

Inductive event :=
| Chdir (dir : string)
| Exists (p : string)
| GitMv (src dest : string)
| Rename (src dest : string)
| Rglob (dir pattern : string)
| ReadText (p : string)
| WriteText (p content : string).

(** The working directory, the regular files of the file system (by
    absolute name, with their text), what was printed (one entry per
    call of [print]) and the calls made to the file system. *)
Record world := {
  cwd : string;
  tree : gmap string string;
  stdout : list string;
  trace : list event
}.

(** What lies outside the model: how [git mv] answers and whether the
    operating system refuses a rename (permissions, a directory in the
    way). Both see the absolute names. *)
Record env := {
  git_mv_answer : gmap string string -> string -> string -> git_result;
  rename_refused : gmap string string -> string -> string -> bool
}.

Inductive outcome (A : Type) :=
| Returned (a : A) (w : world)
| Raised (e : exn) (w : world).
Arguments Returned {A} a w.
Arguments Raised {A} e w.

Definition M (A : Type) : Type := world -> outcome A.

Definition ret {A} (a : A) : M A := fun w => Returned a w.

Definition bind {A B} (m : M A) (k : A -> M B) : M B :=
  fun w => match m w with
           | Returned a w' => k a w'
           | Raised e w' => Raised e w'
           end.

Definition raise {A} (e : exn) : M A := fun w => Raised e w.

(** [try: body  except CalledProcessError: handler] *)
Definition try_except_CalledProcessError (body handler : M unit) : M unit :=
  fun w => match body w with
           | Raised CalledProcessError w' => handler w'
           | r => r
           end.

Definition final {A} (r : outcome A) : world :=
  match r with Returned _ w => w | Raised _ w => w end.

Definition log (ev : event) (w : world) : world :=
  {| cwd := cwd w; tree := tree w; stdout := stdout w; trace := trace w ++ [ev] |}.

Definition with_tree (t : gmap string string) (w : world) : world :=
  {| cwd := cwd w; tree := t; stdout := stdout w; trace := trace w |}.

(** The absolute name of the relative path [p]. *)
Definition resolve (dir p : string) : string := dir +:+ "/" +:+ p.

Definition path_str (p : Path) : string :=
  if absolute p then "/" +:+ join "/" (parts p)
  else match parts p with [] => "." | _ => join "/" (parts p) end.

(** Where [os.chdir(p)] leads from [dir]; a relative [p] is taken from
    [dir]. *)
Definition enter (dir : string) (p : Path) : string :=
  if absolute p then path_str p
  else match parts p with
       | [] => dir
       | _ => resolve dir (path_str p)
       end.

(** [os.chdir(p)] *)
Definition chdir (p : Path) : M unit := fun w =>
  Returned tt
    {| cwd := enter (cwd w) p; tree := tree w; stdout := stdout w;
       trace := trace w ++ [Chdir (path_str p)] |}.

(** [print(line)] *)
Definition print (line : string) : M unit := fun w =>
  Returned tt
    {| cwd := cwd w; tree := tree w; stdout := stdout w ++ [line];
       trace := trace w |}.

(** [Path(p).exists()], for the name of a file. *)
Definition path_exists (p : string) : M bool := fun w =>
  Returned (bool_decide (is_Some (tree w !! resolve (cwd w) p))) (log (Exists p) w).

(** The tree after [src] has been moved to [dest]. *)
Definition moved (src dest : string) (t : gmap string string) : gmap string string :=
  match t !! src with
  | Some c => <[dest := c]> (delete src t)
  | None => t
  end.

(** [subprocess.run(["git", "mv", src, dest], check=True, capture_output=True)] *)
Definition git_mv (e : env) (src dest : string) : M unit := fun w =>
  let w' := log (GitMv src dest) w in
  let a := resolve (cwd w) src in
  let b := resolve (cwd w) dest in
  match git_mv_answer e (tree w) a b with
  | GitMoved => Returned tt (with_tree (moved a b (tree w)) w')
  | GitExitNonZero => Raised CalledProcessError w'
  | GitNotStarted => Raised OSError w'
  end.

(** [Path(src).rename(Path(dest))] *)
Definition path_rename (e : env) (src dest : string) : M unit := fun w =>
  let w' := log (Rename src dest) w in
  let a := resolve (cwd w) src in
  let b := resolve (cwd w) dest in
  match tree w !! a with
  | None => Raised OSError w'
  | Some _ =>
      if rename_refused e (tree w) a b then Raised OSError w'
      else Returned tt (with_tree (moved a b (tree w)) w')
  end.

(** The relative names of the files below the working directory. *)
Definition listing (w : world) : gset string :=
  set_omap (Str.strip_prefix (cwd w +:+ "/")) (dom (tree w)).

(** [list(Path(dir).rglob("*" + suffix))]: the files under [dir], at any
    depth, whose name ends with [suffix]. *)
Definition rglob (dir suffix : string) : M (list string) := fun w =>
  Returned
    (elements (filter (fun p => Str.startswith (dir +:+ "/") p = true
                                /\ Str.endswith suffix p = true) (listing w)))
    (log (Rglob dir ("*" +:+ suffix)) w).

(** [Path(p).read_text()]: the text of the file; a missing file raises. *)
Definition read_text (p : string) : M string := fun w =>
  match tree w !! resolve (cwd w) p with
  | Some c => Returned c (log (ReadText p) w)
  | None => Raised OSError (log (ReadText p) w)
  end.

(** [Path(p).write_text(content)] *)
Definition write_text (p content : string) : M unit := fun w =>
  Returned tt
    (with_tree (<[resolve (cwd w) p := content]> (tree w)) (log (WriteText p content) w)).

(** [for x in xs: acc = body(acc, x)] *)
Fixpoint for_each {A S} (xs : list A) (body : S -> A -> M S) (acc : S) : M S :=
  match xs with
  | [] => ret acc
  | x :: xs' => bind (body acc x) (for_each xs' body)
  end.

End Os.

Declare Scope py_scope.
Delimit Scope py_scope with py.
Notation "'let*' x ':=' m 'in' k" := (Os.bind m (fun x => k))
  (at level 10, x name, m at level 100, k at level 200) : py_scope.
Notation "m ';;' k" := (Os.bind m (fun _ => k))
  (at level 100, k at level 200, right associativity) : py_scope.

(** ** The tables of the two scripts *)

Definition RENAMES : list (string * string) :=
  [
      ("src/lib/components/edra/components/MediaPlaceHolder.svelte", "src/lib/components/edra/components/media-placeholder.svelte");
      ("src/lib/components/edra/components/BubbleMenu.svelte", "src/lib/components/edra/components/bubble-menu.svelte");
      ("src/lib/components/edra/components/DragHandle.svelte", "src/lib/components/edra/components/drag-handle.svelte");
      ("src/lib/components/edra/extensions/FindAndReplace.ts", "src/lib/components/edra/extensions/find-and-replace.ts");
      ("src/lib/components/edra/extensions/InlineMathReplacer.ts", "src/lib/components/edra/extensions/inline-math-replacer.ts");
      ("src/lib/components/edra/extensions/ColorHighlighter.ts", "src/lib/components/edra/extensions/color-highlighter.ts");
      ("src/lib/components/edra/extensions/video/VideoPlaceholder.ts", "src/lib/components/edra/extensions/video/video-placeholder.ts");
      ("src/lib/components/edra/extensions/video/VideoExtension.ts", "src/lib/components/edra/extensions/video/video-extension.ts");
      ("src/lib/components/edra/extensions/video/VideoExtended.ts", "src/lib/components/edra/extensions/video/video-extended.ts");
      ("src/lib/components/edra/extensions/iframe/IFramePlaceholder.ts", "src/lib/components/edra/extensions/iframe/iframe-placeholder.ts");
      ("src/lib/components/edra/extensions/iframe/IFrame.ts", "src/lib/components/edra/extensions/iframe/iframe.ts");
      ("src/lib/components/edra/extensions/iframe/IFrameExtended.ts", "src/lib/components/edra/extensions/iframe/iframe-extended.ts");
      ("src/lib/components/edra/extensions/audio/AudioPlaceholder.ts", "src/lib/components/edra/extensions/audio/audio-placeholder.ts");
      ("src/lib/components/edra/extensions/audio/AudiExtended.ts", "src/lib/components/edra/extensions/audio/audio-extended.ts");
      ("src/lib/components/edra/extensions/audio/AudioExtension.ts", "src/lib/components/edra/extensions/audio/audio-extension.ts");
      ("src/lib/components/edra/extensions/image/ImageExtended.ts", "src/lib/components/edra/extensions/image/image-extended.ts");
      ("src/lib/components/edra/extensions/image/ImagePlaceholder.ts", "src/lib/components/edra/extensions/image/image-placeholder.ts");
      ("src/lib/components/edra/extensions/drag-handle/ClipboardSerializer.ts", "src/lib/components/edra/extensions/drag-handle/clipboard-serializer.ts");
      ("src/lib/components/edra/shadcn/components/IFrameExtended.svelte", "src/lib/components/edra/shadcn/components/iframe-extended.svelte");
      ("src/lib/components/edra/shadcn/components/VideoExtended.svelte", "src/lib/components/edra/shadcn/components/video-extended.svelte");
      ("src/lib/components/edra/shadcn/components/VideoPlaceholder.svelte", "src/lib/components/edra/shadcn/components/video-placeholder.svelte");
      ("src/lib/components/edra/shadcn/components/EdraToolTip.svelte", "src/lib/components/edra/shadcn/components/edra-tooltip.svelte");
      ("src/lib/components/edra/shadcn/components/IFramePlaceHolder.svelte", "src/lib/components/edra/shadcn/components/iframe-placeholder.svelte");
      ("src/lib/components/edra/shadcn/components/ImagePlaceholder.svelte", "src/lib/components/edra/shadcn/components/image-placeholder.svelte");
      ("src/lib/components/edra/shadcn/components/MediaExtended.svelte", "src/lib/components/edra/shadcn/components/media-extended.svelte");
      ("src/lib/components/edra/shadcn/components/CodeBlock.svelte", "src/lib/components/edra/shadcn/components/code-block.svelte");
      ("src/lib/components/edra/shadcn/components/AudioExtended.svelte", "src/lib/components/edra/shadcn/components/audio-extended.svelte");
      ("src/lib/components/edra/shadcn/components/SlashCommandList.svelte", "src/lib/components/edra/shadcn/components/slash-command-list.svelte");
      ("src/lib/components/edra/shadcn/components/AudioPlaceHolder.svelte", "src/lib/components/edra/shadcn/components/audio-placeholder.svelte");
      ("src/lib/components/edra/shadcn/components/ImageExtended.svelte", "src/lib/components/edra/shadcn/components/image-extended.svelte");
      ("src/lib/components/edra/shadcn/components/ToolBarIcon.svelte", "src/lib/components/edra/shadcn/components/toolbar-icon.svelte");
      ("src/lib/components/edra/shadcn/components/toolbar/Alignment.svelte", "src/lib/components/edra/shadcn/components/toolbar/alignment.svelte");
      ("src/lib/components/edra/shadcn/components/toolbar/QuickColors.svelte", "src/lib/components/edra/shadcn/components/toolbar/quick-colors.svelte");
      ("src/lib/components/edra/shadcn/components/toolbar/Headings.svelte", "src/lib/components/edra/shadcn/components/toolbar/headings.svelte");
      ("src/lib/components/edra/shadcn/components/toolbar/SearchAndReplace.svelte", "src/lib/components/edra/shadcn/components/toolbar/search-and-replace.svelte");
      ("src/lib/components/edra/shadcn/components/toolbar/FontSize.svelte", "src/lib/components/edra/shadcn/components/toolbar/font-size.svelte");
      ("src/lib/components/edra/shadcn/menus/TableRow.svelte", "src/lib/components/edra/shadcn/menus/table-row.svelte");
      ("src/lib/components/edra/shadcn/menus/TableCol.svelte", "src/lib/components/edra/shadcn/menus/table-col.svelte");
      ("src/lib/components/edra/shadcn/menus/Menu.svelte", "src/lib/components/edra/shadcn/menus/menu.svelte");
      ("src/lib/components/edra/shadcn/menus/Link.svelte", "src/lib/components/edra/shadcn/menus/link.svelte") ].

(** The entries of the Renamer's [replacements], as listed. *)
Definition replacements_listed : list (string * string) :=
  [
      ("MediaPlaceHolder.svelte", "media-placeholder.svelte");
      ("BubbleMenu.svelte", "bubble-menu.svelte");
      ("DragHandle.svelte", "drag-handle.svelte");
      ("FindAndReplace.ts", "find-and-replace.ts");
      ("InlineMathReplacer.ts", "inline-math-replacer.ts");
      ("ColorHighlighter.ts", "color-highlighter.ts");
      ("VideoPlaceholder.ts", "video-placeholder.ts");
      ("VideoExtension.ts", "video-extension.ts");
      ("VideoExtended.ts", "video-extended.ts");
      ("IFramePlaceholder.ts", "iframe-placeholder.ts");
      ("IFrame.ts", "iframe.ts");
      ("IFrameExtended.ts", "iframe-extended.ts");
      ("AudioPlaceholder.ts", "audio-placeholder.ts");
      ("AudiExtended.ts", "audio-extended.ts");
      ("AudioExtension.ts", "audio-extension.ts");
      ("ImageExtended.ts", "image-extended.ts");
      ("ImagePlaceholder.ts", "image-placeholder.ts");
      ("ClipboardSerializer.ts", "clipboard-serializer.ts");
      ("IFrameExtended.svelte", "iframe-extended.svelte");
      ("VideoExtended.svelte", "video-extended.svelte");
      ("VideoPlaceholder.svelte", "video-placeholder.svelte");
      ("EdraToolTip.svelte", "edra-tooltip.svelte");
      ("IFramePlaceHolder.svelte", "iframe-placeholder.svelte");
      ("ImagePlaceholder.svelte", "image-placeholder.svelte");
      ("MediaExtended.svelte", "media-extended.svelte");
      ("CodeBlock.svelte", "code-block.svelte");
      ("AudioExtended.svelte", "audio-extended.svelte");
      ("SlashCommandList.svelte", "slash-command-list.svelte");
      ("AudioPlaceHolder.svelte", "audio-placeholder.svelte");
      ("ImageExtended.svelte", "image-extended.svelte");
      ("ToolBarIcon.svelte", "toolbar-icon.svelte");
      ("Alignment.svelte", "alignment.svelte");
      ("QuickColors.svelte", "quick-colors.svelte");
      ("Headings.svelte", "headings.svelte");
      ("SearchAndReplace.svelte", "search-and-replace.svelte");
      ("FontSize.svelte", "font-size.svelte");
      ("TableRow.svelte", "table-row.svelte");
      ("TableCol.svelte", "table-col.svelte");
      ("Menu.svelte", "menu.svelte");
      ("Link.svelte", "link.svelte") ].

Definition replacements : list (string * string) :=
  Dict.literal replacements_listed.

(** The entries of the Import Fixer's [IMPORT_REPLACEMENTS], as listed. *)
Definition IMPORT_REPLACEMENTS_listed : list (string * string) :=
  [
      ("ColorHighlighter.js", "color-highlighter.js");
      ("FindAndReplace.js", "find-and-replace.js");
      ("InlineMathReplacer.js", "inline-math-replacer.js");
      ("VideoPlaceholder.js", "video-placeholder.js");
      ("VideoExtension.js", "video-extension.js");
      ("VideoExtended.js", "video-extended.js");
      ("IFramePlaceholder.js", "iframe-placeholder.js");
      ("IFrame.js", "iframe.js");
      ("IFrameExtended.js", "iframe-extended.js");
      ("AudioPlaceholder.js", "audio-placeholder.js");
      ("AudiExtended.js", "audio-extended.js");
      ("AudioExtension.js", "audio-extension.js");
      ("ImageExtended.js", "image-extended.js");
      ("ImagePlaceholder.js", "image-placeholder.js");
      ("ClipboardSerializer.js", "clipboard-serializer.js") ].

Definition IMPORT_REPLACEMENTS : list (string * string) :=
  Dict.literal IMPORT_REPLACEMENTS_listed.

Definition edra_dir : string := "src/lib/components/edra".

(** ** The Renamer: [scripts/rename-edra-to-kebab.py] *)

Module Renamer.
Import Os.
Local Open Scope py_scope.

(** The body of the first loop of [main]. *)
Definition rename_one (e : env) (_ : unit) (pair : string * string) : M unit :=
  let '(src, dest) := pair in
  let* found := path_exists src in
  if found : bool then
    print ("Renaming: " +:+ src +:+ " -> " +:+ dest) ;;
    try_except_CalledProcessError (git_mv e src dest) (path_rename e src dest)
  else
    print ("Warning: File not found: " +:+ src).

(** [for old_name, new_name in replacements.items():
       content = content.replace(old_name, new_name)] *)
Fixpoint replace_all (items : list (string * string)) (content : string) : string :=
  match items with
  | [] => content
  | (old_name, new_name) :: rest =>
      replace_all rest (Str.replace content old_name new_name)
  end.

Definition update_content (content : string) : string :=
  replace_all (Dict.items replacements) content.

(** The body of the second loop of [main]. *)
Definition update_file (_ : unit) (file_path : string) : M unit :=
  let* content := read_text file_path in
  let original_content := content in
  let content := update_content content in
  if bool_decide (content <> original_content) then
    write_text file_path content ;;
    print ("Updated imports in: " +:+ file_path)
  else ret tt.

Definition first_pass (e : env) : M unit :=
  for_each RENAMES (rename_one e) tt.

Definition second_pass : M unit :=
  let* ts := rglob edra_dir ".ts" in
  let* svelte := rglob edra_dir ".svelte" in
  let files_to_update := ts ++ svelte in
  for_each files_to_update update_file tt ;;
  print (Str.nl +:+ "✓ Import updates complete!") ;;
  print (Str.nl +:+ "All done! ✓").

(** [main()], with [__file__] given. *)
Definition main (e : env) (file : Path) : M unit :=
  let root := parent (parent file) in
  chdir root ;;
  print ("Starting file renames..." +:+ Str.nl) ;;
  first_pass e ;;
  print (Str.nl +:+ "✓ File renames complete!" +:+ Str.nl) ;;
  print ("Now updating imports in all files..." +:+ Str.nl) ;;
  second_pass.

End Renamer.

(** ** The Import Fixer: [scripts/fix-edra-imports.py] *)

Module Fixer.
Import Os.
Local Open Scope py_scope.

(** [for old_import, new_import in IMPORT_REPLACEMENTS.items():
       if old_import in content:
           content = content.replace(old_import, new_import)] *)
Fixpoint replace_present (items : list (string * string)) (content : string) : string :=
  match items with
  | [] => content
  | (old_import, new_import) :: rest =>
      replace_present rest
        (if Str.contains old_import content
         then Str.replace content old_import new_import
         else content)
  end.

Definition update_content (content : string) : string :=
  replace_present (Dict.items IMPORT_REPLACEMENTS) content.

(** The body of the loop of [main]; [files_updated] is threaded. *)
Definition update_file (files_updated : nat) (file_path : string) : M nat :=
  let* content := read_text file_path in
  let original_content := content in
  let content := update_content content in
  if bool_decide (content <> original_content) then
    write_text file_path content ;;
    let files_updated := files_updated + 1 in
    print ("✓ Updated: " +:+ file_path) ;;
    ret files_updated
  else ret files_updated.

(** [main()], with [__file__] given. *)
Definition main (file : Path) : M unit :=
  let root := parent (parent file) in
  chdir root ;;
  print ("Fixing import statements..." +:+ Str.nl) ;;
  let* ts := rglob edra_dir ".ts" in
  let* svelte := rglob edra_dir ".svelte" in
  let files_to_update := ts ++ svelte in
  let files_updated := 0 in
  let* files_updated := for_each files_to_update update_file files_updated in
  print (Str.nl +:+ "✓ Fixed imports in " +:+ Str.of_nat files_updated +:+ " files!").

End Fixer.

(** A run of a script: a fresh process started in [dir] on the files [t]. *)
Definition start (dir : string) (t : gmap string string) : Os.world :=
  {| Os.cwd := dir; Os.tree := t; Os.stdout := []; Os.trace := [] |}.

(** ** Vocabulary of the properties *)

(** [k] is non-empty and none of the new tokens of [items] can take part
    in an occurrence of [k]. *)
Definition stays_gone (k : string) (items : list (string * string)) : bool :=
  negb (String.eqb k "") && forallb (fun p => Str.clear_of k (snd p)) items.

(** The old tokens of [items] that stay gone from their own replacement
    on. *)
Fixpoint settled (items : list (string * string)) : list string :=
  match items with
  | [] => []
  | (k, v) :: rest =>
      (if stays_gone k items then [k] else []) ++ settled rest
  end.

Definition old_tokens (items : list (string * string)) : list string :=
  map fst items.

(** The old file names the Renamer's second pass removes from every
    text. *)
Definition always_gone : list string :=
  [ "BubbleMenu.svelte"; "IFramePlaceHolder.svelte"; "ImagePlaceholder.svelte";
    "MediaExtended.svelte"; "CodeBlock.svelte"; "AudioExtended.svelte";
    "SlashCommandList.svelte"; "AudioPlaceHolder.svelte"; "ImageExtended.svelte";
    "ToolBarIcon.svelte"; "Alignment.svelte"; "QuickColors.svelte";
    "Headings.svelte"; "SearchAndReplace.svelte"; "FontSize.svelte";
    "TableRow.svelte"; "TableCol.svelte"; "Menu.svelte"; "Link.svelte" ].

(** The other old file names, each with a text whose rewriting still
    holds it. *)
Definition may_remain : list (string * string) :=
  [ ("MediaPlaceHolder.svelte", "MediaPlaceHolder.sveltEdraToolTip.svelte");
    ("DragHandle.svelte", "DragHandle.sveltEdraToolTip.svelte");
    ("FindAndReplace.ts", "FindAndReplace.tSlashCommandList.svelte");
    ("InlineMathReplacer.ts", "InlineMathReplacer.tSlashCommandList.svelte");
    ("ColorHighlighter.ts", "ColorHighlighter.tSlashCommandList.svelte");
    ("VideoPlaceholder.ts", "VideoPlaceholder.tSlashCommandList.svelte");
    ("VideoExtension.ts", "VideoExtension.tSlashCommandList.svelte");
    ("VideoExtended.ts", "VideoExtended.tSlashCommandList.svelte");
    ("IFramePlaceholder.ts", "IFramePlaceholder.tSlashCommandList.svelte");
    ("IFrame.ts", "IFrame.tSlashCommandList.svelte");
    ("IFrameExtended.ts", "IFrameExtended.tSlashCommandList.svelte");
    ("AudioPlaceholder.ts", "AudioPlaceholder.tSlashCommandList.svelte");
    ("AudiExtended.ts", "AudiExtended.tSlashCommandList.svelte");
    ("AudioExtension.ts", "AudioExtension.tSlashCommandList.svelte");
    ("ImageExtended.ts", "ImageExtended.tSlashCommandList.svelte");
    ("ImagePlaceholder.ts", "ImagePlaceholder.tSlashCommandList.svelte");
    ("ClipboardSerializer.ts", "ClipboardSerializer.tSlashCommandList.svelte");
    ("IFrameExtended.svelte", "IFrameExtended.sveltEdraToolTip.svelte");
    ("VideoExtended.svelte", "VideoExtended.sveltEdraToolTip.svelte");
    ("VideoPlaceholder.svelte", "VideoPlaceholder.sveltEdraToolTip.svelte");
    ("EdraToolTip.svelte", "EdraToolTip.sveltEdraToolTip.svelte") ].

Definition is_chdir (ev : Os.event) : bool :=
  match ev with Os.Chdir _ => true | _ => false end.



(** The rewriting [f] changes the file [p] of [w]. *)
Definition changed (f : string -> string) (w : Os.world) (p : string) : bool :=
  match Os.tree w !! Os.resolve (Os.cwd w) p with
  | Some c => bool_decide (f c <> c)
  | None => false
  end.

(** The file-system calls of one visit of [p]: it is read, and written
    when [f] changes it. *)
Definition visit_events (f : string -> string) (w : Os.world) (p : string) : list Os.event :=
  Os.ReadText p ::
  match Os.tree w !! Os.resolve (Os.cwd w) p with
  | Some c => if bool_decide (f c <> c) then [Os.WriteText p (f c)] else []
  | None => []
  end.

(** The world after the files [ps] of [w] were visited, each once: the
    files that [f] changes hold the new text and are reported with
    [msg]. *)
Definition visited (f : string -> string) (msg : string -> string)
    (ps : list string) (w : Os.world) : Os.world :=
  {| Os.cwd := Os.cwd w;
     Os.tree :=
       fold_right (fun p t => alter f (Os.resolve (Os.cwd w) p) t) (Os.tree w) ps;
     Os.stdout := Os.stdout w ++ map msg (List.filter (changed f w) ps);
     Os.trace := Os.trace w ++ flat_map (visit_events f w) ps |}.

Definition fixer_report (file_path : string) : string :=
  "✓ Updated: " +:+ file_path.

(** The files both scripts go through, in the order of the loop. *)
Definition files_to_update (w : Os.world) : list string :=
  elements (filter (fun p => Str.startswith (edra_dir +:+ "/") p = true
                             /\ Str.endswith ".ts" p = true) (Os.listing w))
  ++ elements (filter (fun p => Str.startswith (edra_dir +:+ "/") p = true
                                /\ Str.endswith ".svelte" p = true) (Os.listing w)).

(** The world once both lists of files were taken. *)
Definition globbed (w : Os.world) : Os.world :=
  Os.log (Os.Rglob edra_dir "*.svelte") (Os.log (Os.Rglob edra_dir "*.ts") w).

(** The Import Fixer, started in [dir] on [t], when it reaches its
    loop. *)
Definition fixer_started (file : Os.Path) (dir : string) (t : gmap string string) : Os.world :=
  {| Os.cwd := Os.enter dir (Os.parent (Os.parent file)); Os.tree := t;
     Os.stdout := ["Fixing import statements..." +:+ Str.nl];
     Os.trace := [Os.Chdir (Os.path_str (Os.parent (Os.parent file)))] |}.

(** A computation that stays in its directory: however it ends, the
    working directory is the one it started in and none of the calls it
    made is a [chdir]. *)
Definition stays_put {A} (m : Os.M A) : Prop :=
  forall w,
    Os.cwd (Os.final (m w)) = Os.cwd w /\
    exists evs, Os.trace (Os.final (m w)) = Os.trace w ++ evs /\
                Forall (fun ev => is_chdir ev = false) evs.


(** The world after a pair whose source is missing: the test and the
    warning, nothing else. *)
Definition warned (src : string) (w : Os.world) : Os.world :=
  {| Os.cwd := Os.cwd w; Os.tree := Os.tree w;
     Os.stdout := Os.stdout w ++ ["Warning: File not found: " +:+ src];
     Os.trace := Os.trace w ++ [Os.Exists src] |}.

(** The world after a pair that [git mv] refused and the plain rename
    moved; [c] is the text of the source. *)
Definition renamed_by_fallback (src dest c : string) (w : Os.world) : Os.world :=
  {| Os.cwd := Os.cwd w;
     Os.tree := <[Os.resolve (Os.cwd w) dest := c]>
                  (delete (Os.resolve (Os.cwd w) src) (Os.tree w));
     Os.stdout := Os.stdout w ++ ["Renaming: " +:+ src +:+ " -> " +:+ dest];
     Os.trace := Os.trace w ++ [Os.Exists src; Os.GitMv src dest; Os.Rename src dest] |}.

(** Concrete runs used below: the two scripts in [/repo/scripts], a
    machine where [git mv] exits with an error, one without [git], and
    two small trees. *)
Definition renamer_script : Os.Path :=
  {| Os.absolute := true; Os.parts := ["repo"; "scripts"; "rename-edra-to-kebab.py"] |}.
Definition fixer_script : Os.Path :=
  {| Os.absolute := true; Os.parts := ["repo"; "scripts"; "fix-edra-imports.py"] |}.
Definition git_exits : Os.env :=
  {| Os.git_mv_answer := fun _ _ _ => Os.GitExitNonZero;
     Os.rename_refused := fun _ _ _ => false |}.
Definition no_git : Os.env :=
  {| Os.git_mv_answer := fun _ _ _ => Os.GitNotStarted;
     Os.rename_refused := fun _ _ _ => false |}.
Definition media_src : string :=
  "src/lib/components/edra/components/MediaPlaceHolder.svelte".
Definition media_dest : string :=
  "src/lib/components/edra/components/media-placeholder.svelte".
Definition media_tree : gmap string string :=
  {[ "/repo/src/lib/components/edra/components/MediaPlaceHolder.svelte" := "<div/>" ]}.
Definition editor_tree : gmap string string :=
  {[ "/repo/src/lib/components/edra/editor.ts" := "import Menu from './Menu.svelte'" ]}.

(** The fold the specification speaks of: literal replacement of each
    pair in turn, each on the result of the one before. *)
Definition replace_fold (pairs : list (string * string)) (text : string) : string :=
  fold_left (fun content p => Str.replace content (fst p) (snd p)) pairs text.

(** ** Vocabulary of the further properties *)

(** An environment in which no pair fails: [git mv] can be launched and
    the system refuses no rename. *)
Definition cooperative (e : Os.env) : Prop :=
  forall t a b,
    Os.git_mv_answer e t a b <> Os.GitNotStarted /\
    Os.rename_refused e t a b = false.

(** The tree after the sources of [pairs] that exist were moved to
    their destinations, pair by pair; the names are taken from [dir]. *)
Definition moves (dir : string) (pairs : list (string * string))
    (t : gmap string string) : gmap string string :=
  fold_left (fun t p => Os.moved (Os.resolve dir (fst p)) (Os.resolve dir (snd p)) t)
            pairs t.

(** The sources and the destinations of [pairs]. *)
Definition names (pairs : list (string * string)) : list string :=
  map fst pairs ++ map snd pairs.

(** The capital letters [A] to [Z], and how many a text has. *)
Definition is_upper (a : ascii) : bool :=
  (65 <=? nat_of_ascii a) && (nat_of_ascii a <=? 90).
Definition uppers (l : list ascii) : nat := length (List.filter is_upper l).



(** The Renamer, started in [dir] on [t], when it reaches its first
    loop. *)
Definition renamer_started (file : Os.Path) (dir : string) (t : gmap string string) : Os.world :=
  {| Os.cwd := Os.enter dir (Os.parent (Os.parent file)); Os.tree := t;
     Os.stdout := ["Starting file renames..." +:+ Str.nl];
     Os.trace := [Os.Chdir (Os.path_str (Os.parent (Os.parent file)))] |}.

(** A machine where [git mv] succeeds, and one where it exits with an
    error and the plain rename is refused. *)
Definition git_moves : Os.env :=
  {| Os.git_mv_answer := fun _ _ _ => Os.GitMoved;
     Os.rename_refused := fun _ _ _ => false |}.
Definition all_refused : Os.env :=
  {| Os.git_mv_answer := fun _ _ _ => Os.GitExitNonZero;
     Os.rename_refused := fun _ _ _ => true |}.


(** Every old token of [items] is non-empty and has a capital letter,
    and no new token has one. *)
Definition lowers (items : list (string * string)) : bool :=
  forallb (fun p => negb (String.eqb (fst p) "")
                    && (0 <? uppers (Str.chars (fst p)))
                    && (uppers (Str.chars (snd p)) =? 0)) items.

(** * Facts about the text operations *)

Module TextFacts.
Import Text.
Section facts.
Context {A : Type} `{EqDecision A}.
Implicit Types (s old new k : list A).

Lemma startswith_prefix p s : startswith p s = true <-> exists t, s = p ++ t.
Proof.
  revert s. induction p as [|a p IH]; intros s; simpl.
  - split; eauto.
  - destruct s as [|b s].
    + split; [discriminate | intros [t Ht]; discriminate].
    + rewrite andb_true_iff, bool_decide_eq_true, IH. split.
      * intros [-> [t ->]]. eauto.
      * intros [t Ht]. injection Ht as -> ->. eauto.
Qed.

Lemma startswith_drop p s : startswith p s = true -> s = p ++ drop (length p) s.
Proof.
  intros [t ->]%startswith_prefix. by rewrite drop_app_length.
Qed.

Lemma replace_scan_skip old new n s :
  replace_scan old new n s = replace_scan old new 0 (drop n s).
Proof.
  revert n. induction s as [|c s IH]; intros [|n]; simpl; auto.
Qed.

(** The scan, one step at a time. *)
Lemma replace_scan_nil old new : replace_scan old new 0 [] = [].
Proof. reflexivity. Qed.

Lemma replace_scan_match old new s :
  old <> [] -> startswith old s = true ->
  replace_scan old new 0 s = new ++ replace_scan old new 0 (drop (length old) s).
Proof.
  intros Hold Hs. destruct s as [|c s].
  - destruct old; [done | discriminate].
  - simpl replace_scan. rewrite Hs, replace_scan_skip.
    destruct old as [|o old]; [done|]. simpl. by rewrite Nat.sub_0_r.
Qed.

Lemma replace_scan_copy old new c s :
  startswith old (c :: s) = false ->
  replace_scan old new 0 (c :: s) = c :: replace_scan old new 0 s.
Proof. intros Hs. simpl replace_scan. by rewrite Hs. Qed.

(** *** Occurrences *)

Lemma infix_refl k : infix k k.
Proof. exists [], []. by rewrite app_nil_r. Qed.

Lemma infix_trans k1 k2 s : infix k1 k2 -> infix k2 s -> infix k1 s.
Proof.
  intros (a & b & ->) (c & d & ->). exists (c ++ a), (b ++ d).
  by rewrite <- !app_assoc.
Qed.

Lemma infix_cons k c s : infix k s -> infix k (c :: s).
Proof. intros (a & b & ->). by exists (c :: a), b. Qed.

Lemma infix_app_r k t s : infix k s -> infix k (t ++ s).
Proof. intros (a & b & ->). exists (t ++ a), b. by rewrite <- app_assoc. Qed.

Lemma infix_drop k n s : infix k (drop n s) -> infix k s.
Proof.
  intros H1. rewrite <- (take_drop n s). by apply infix_app_r.
Qed.

Lemma infix_startswith k s : startswith k s = true -> infix k s.
Proof. intros [t ->]%startswith_prefix. by exists [], t. Qed.

(** An occurrence in [c :: s] is at the head or in the tail. *)
Lemma infix_cons_inv k c s :
  infix k (c :: s) -> startswith k (c :: s) = true \/ infix k s.
Proof.
  intros (a & b & Hs). destruct a as [|c' a]; simpl in Hs.
  - left. apply startswith_prefix. eauto.
  - right. injection Hs as _ ->. by exists a, b.
Qed.

Lemma contains_infix k s : contains k s = true <-> infix k s.
Proof.
  induction s as [|c s IH]; simpl.
  - split.
    + apply infix_startswith.
    + intros (a & b & Hs). apply startswith_prefix.
      destruct a; [|done]. destruct k; [|done]. by exists [].
  - rewrite orb_true_iff, IH. split.
    + intros [?|?]; [by apply infix_startswith | by apply infix_cons].
    + apply infix_cons_inv.
Qed.

Lemma not_contains_infix k s : contains k s = false <-> ~ infix k s.
Proof. rewrite <- contains_infix. by destruct (contains k s). Qed.

Lemma startswith_app k x y :
  startswith k (x ++ y) = true -> startswith k x = true \/ startswith x k = true.
Proof.
  revert x. induction k as [|a k IH]; intros x; [by left|].
  destruct x as [|b x]; [by right|]. simpl.
  rewrite !andb_true_iff, !bool_decide_eq_true. intros [-> Hk].
  destruct (IH _ Hk); auto.
Qed.

(** An occurrence in [x ++ y] lies in [y] or starts inside [x]. *)
Lemma infix_app_inv k x y :
  infix k (x ++ y) ->
  infix k y \/
  exists x1 x2, x = x1 ++ x2 /\ x2 <> [] /\ startswith k (x2 ++ y) = true.
Proof.
  induction x as [|c x IH]; [by left|].
  intros [Hk|Hk]%infix_cons_inv.
  - right. by exists [], (c :: x).
  - destruct (IH Hk) as [?|(x1 & x2 & -> & ? & ?)]; [by left|].
    right. by exists (c :: x1), x2.
Qed.

(** *** Replacement where nothing matches *)

Lemma replace_scan_absent old new s :
  contains old s = false -> replace_scan old new 0 s = s.
Proof.
  induction s as [|c s IH]; [done|]. simpl contains.
  intros [Hc Hs]%orb_false_iff.
  rewrite replace_scan_copy by done. by rewrite IH.
Qed.

Lemma contains_nil s : contains (A:=A) [] s = true.
Proof. by destruct s. Qed.

Lemma replace_absent s old new : contains old s = false -> replace s old new = s.
Proof.
  destruct old as [|o old]; [by rewrite contains_nil|].
  apply replace_scan_absent.
Qed.

(** *** Occurrences after a replacement *)

Section clear.
Variables k new : list A.

Lemma clear_of_tails :
  clear_of k new = true -> tail_of_new_apart k new /\ tail_of_key_apart new k.
Proof.
  unfold clear_of. rewrite andb_true_iff, !forallb_forall.
  intros [Hn Hk]. split.
  - intros n1 n2 -> Hn2. specialize (Hn (length n1)).
    rewrite drop_app_length in Hn. apply Hn, in_seq.
    rewrite length_app. destruct n2; [done|]. simpl. lia.
  - intros k1 k2 -> Hk2. specialize (Hk (length k1)).
    rewrite drop_app_length in Hk. apply Hk, in_seq.
    rewrite length_app. destruct k2; [done|]. simpl. lia.
Qed.

Lemma apart_not_startswith (x y : list A) :
  apart x y = true -> startswith x y = false /\ startswith y x = false.
Proof. unfold apart. by rewrite negb_true_iff, orb_false_iff. Qed.

(** A prefix of the output that cannot run into an inserted [new] is a
    prefix of the input. *)
Lemma startswith_replace_scan old s k' :
  tail_of_key_apart new k' ->
  startswith k' (replace_scan old new 0 s) = true -> startswith k' s = true.
Proof.
  revert k'. induction s as [|c s IH]; intros k' Hk'; [done|].
  destruct k' as [|a k']; [done|].
  destruct (startswith old (c :: s)) eqn:Hm.
  - simpl replace_scan. rewrite Hm. intros [H1|H1]%startswith_app.
    + pose proof (Hk' [] (a :: k') eq_refl ltac:(done)) as Hap.
      apply apart_not_startswith in Hap as [Hap _]. congruence.
    + pose proof (Hk' [] (a :: k') eq_refl ltac:(done)) as Hap.
      apply apart_not_startswith in Hap as [_ Hap]. congruence.
  - rewrite replace_scan_copy by done. simpl.
    rewrite !andb_true_iff. intros [Hac Hs]. split; [done|].
    apply IH; [|done]. intros k1 k2 -> Hk2.
    by apply (Hk' (a :: k1) k2).
Qed.

(** [k] does not occur in the output when it is the replaced token
    itself, or when it did not occur in the input. *)
Lemma replace_scan_no_occurrence old s :
  old <> [] -> tail_of_new_apart k new -> tail_of_key_apart new k ->
  k = old \/ ~ infix k s ->
  ~ infix k (replace_scan old new 0 s).
Proof.
  intros Hold Hn Hk.
  remember (length s) as n eqn:Hlen. revert s Hlen.
  induction (lt_wf n) as [n _ IH]. intros s -> Hks Hocc.
  destruct s as [|c s].
  - simpl in Hocc. destruct Hks as [->|Hks]; [|done].
    destruct Hocc as ([|??] & b & Hb); [|done].
    destruct old; [done|discriminate].
  - destruct (startswith old (c :: s)) eqn:Hm.
    + rewrite replace_scan_match in Hocc by done.
      apply infix_app_inv in Hocc as [Hocc|(n1 & n2 & Hnew & Hn2 & Hocc)].
      * revert Hocc. eapply IH; [|done|].
        { rewrite length_drop. destruct old; [done|]. simpl. lia. }
        destruct Hks as [?|Hks]; [by left|right].
        intros ?. by eapply Hks, infix_drop.
      * pose proof (Hn n1 n2 Hnew Hn2) as [H1 H2]%apart_not_startswith.
        apply startswith_app in Hocc as [?|?]; congruence.
    + rewrite replace_scan_copy in Hocc by done.
      apply infix_cons_inv in Hocc as [Hocc|Hocc].
      * rewrite <- (replace_scan_copy old new) in Hocc by done.
        apply startswith_replace_scan in Hocc; [|done].
        destruct Hks as [->|Hks]; [congruence|].
        by apply Hks, infix_startswith.
      * revert Hocc. eapply (IH (length s)); [simpl; lia|done|].
        destruct Hks as [?|Hks]; [by left|right].
        intros ?. by apply Hks, infix_cons.
Qed.

End clear.

(** The replaced token is gone. *)
Lemma replace_eliminates s old new :
  old <> [] -> clear_of old new = true -> ~ infix old (replace s old new).
Proof.
  intros Hold [Hn Hk]%clear_of_tails.
  destruct old as [|o old]; [done|].
  apply replace_scan_no_occurrence; auto.
Qed.

(** A token that was absent stays absent. *)
Lemma replace_creates_no s old new k :
  old <> [] -> clear_of k new = true ->
  ~ infix k s -> ~ infix k (replace s old new).
Proof.
  intros Hold [Hn Hk]%clear_of_tails Hks.
  destruct old as [|o old]; [done|].
  apply replace_scan_no_occurrence; auto.
Qed.

End facts.
End TextFacts.

(** * Facts about strings *)

Module StrFacts.
Import Str.

Lemma of_chars_chars s : of_chars (chars s) = s.
Proof. apply string_of_list_ascii_of_string. Qed.

Lemma chars_of_chars l : chars (of_chars l) = l.
Proof. apply list_ascii_of_string_of_list_ascii. Qed.

Lemma append_cons a s t : String a s +:+ t = String a (s +:+ t).
Proof. reflexivity. Qed.

Lemma chars_app s t : chars (s +:+ t) = chars s ++ chars t.
Proof.
  induction s as [|a s IH]; [done|].
  rewrite append_cons. unfold chars in *. simpl. by rewrite IH.
Qed.

Lemma of_chars_app l m : of_chars (l ++ m) = of_chars l +:+ of_chars m.
Proof.
  rewrite <- (of_chars_chars (of_chars l +:+ of_chars m)).
  by rewrite chars_app, !chars_of_chars.
Qed.

Lemma chars_inj s t : chars s = chars t -> s = t.
Proof. intros Hst. by rewrite <- (of_chars_chars s), Hst, of_chars_chars. Qed.

Lemma chars_nil s : chars s = [] -> s = "".
Proof. by destruct s. Qed.

Lemma infix_chars k s : infix k s <-> Text.infix (chars k) (chars s).
Proof.
  split.
  - intros (a & b & ->). exists (chars a), (chars b). by rewrite !chars_app.
  - intros (a & b & Hs). exists (of_chars a), (of_chars b).
    apply chars_inj. by rewrite !chars_app, !chars_of_chars.
Qed.

Lemma str_contains_infix k s : contains k s = true <-> infix k s.
Proof. unfold contains. by rewrite TextFacts.contains_infix, infix_chars. Qed.

Lemma str_not_contains_infix k s : contains k s = false <-> ~ infix k s.
Proof. rewrite <- str_contains_infix. by destruct (contains k s). Qed.

Lemma str_infix_trans k1 k2 s : infix k1 k2 -> infix k2 s -> infix k1 s.
Proof. rewrite !infix_chars. apply TextFacts.infix_trans. Qed.

Lemma str_replace_absent s old new : contains old s = false -> replace s old new = s.
Proof.
  intros Hc. unfold replace. rewrite TextFacts.replace_absent by done.
  apply of_chars_chars.
Qed.

Lemma str_replace_eliminates s old new :
  old <> "" -> clear_of old new = true -> ~ infix old (replace s old new).
Proof.
  intros Hold Hc. unfold replace. rewrite infix_chars, chars_of_chars.
  apply TextFacts.replace_eliminates; [|done].
  intros ?. by apply Hold, chars_nil.
Qed.

Lemma str_replace_creates_no s old new k :
  old <> "" -> clear_of k new = true ->
  ~ infix k s -> ~ infix k (replace s old new).
Proof.
  intros Hold Hc. unfold replace. rewrite !infix_chars, chars_of_chars.
  apply TextFacts.replace_creates_no; [|done].
  intros ?. by apply Hold, chars_nil.
Qed.

Lemma str_startswith_app p s : startswith p s = true <-> exists t, s = p +:+ t.
Proof.
  unfold startswith. rewrite TextFacts.startswith_prefix. split.
  - intros [t Ht]. exists (of_chars t). apply chars_inj.
    by rewrite chars_app, chars_of_chars.
  - intros [t ->]. exists (chars t). apply chars_app.
Qed.

Lemma strip_prefix_Some p s r : strip_prefix p s = Some r <-> s = p +:+ r.
Proof.
  revert s. induction p as [|a p IH]; intros s; simpl.
  - split; [by intros [= ->] | by intros ->].
  - destruct s as [|b s]; [done|]. rewrite append_cons.
    destruct (Ascii.eqb_spec a b) as [->|Hab].
    + rewrite IH. split; [by intros -> | by intros [= ->]].
    + split; [done | by intros [= ? ?]].
Qed.

(** No name ends both in [.ts] and in [.svelte]. *)
Lemma endswith_ts_svelte p :
  endswith ".ts" p = true -> endswith ".svelte" p = true -> False.
Proof.
  unfold endswith. generalize (rev (chars p)). intros [|c l]; [done|].
  cbn. rewrite !andb_true_iff, !bool_decide_eq_true.
  by intros [<- _] [? _].
Qed.

End StrFacts.

(** * Facts about the replacement loops *)

Module LoopFacts.

Lemma replace_all_fold items text :
  Renamer.replace_all items text = replace_fold items text.
Proof.
  revert text. induction items as [|[old new] items IH]; intros text; [done|].
  apply IH.
Qed.

(** The test [old in content] selects a replacement that changes
    nothing when it is skipped. *)
Lemma replace_present_all items text :
  Fixer.replace_present items text = Renamer.replace_all items text.
Proof.
  revert text. induction items as [|[old new] items IH]; intros text; [done|].
  simpl. destruct (Str.contains old text) eqn:Hc; rewrite IH; [done|].
  by rewrite StrFacts.str_replace_absent.
Qed.

Lemma replace_all_app items1 items2 text :
  Renamer.replace_all (items1 ++ items2) text =
  Renamer.replace_all items2 (Renamer.replace_all items1 text).
Proof.
  revert text. induction items1 as [|[old new] items1 IH]; intros text; [done|].
  apply IH.
Qed.

(** Where no old token occurs the loop changes nothing. *)
Lemma replace_all_absent items text :
  Forall (fun k => ~ Str.infix k text) (old_tokens items) ->
  Renamer.replace_all items text = text.
Proof.
  induction items as [|[old new] items IH]; [done|].
  intros [Hold Hrest]%Forall_cons. simpl.
  rewrite StrFacts.str_replace_absent by by apply StrFacts.str_not_contains_infix.
  by apply IH.
Qed.

Lemma stays_gone_spec k items :
  stays_gone k items = true ->
  k <> "" /\ Forall (fun p : string * string => Str.clear_of k (snd p) = true) items.
Proof.
  unfold stays_gone. rewrite andb_true_iff, negb_true_iff, forallb_forall.
  intros [Hk Hall]. split.
  - intros ->. done.
  - apply Forall_forall. intros p Hp. by apply Hall, list_elem_of_In.
Qed.

(** An absent token stays absent through the replacements that are
    clear of it. *)
Lemma replace_all_creates_no k items text :
  Forall (fun p : string * string => fst p <> "") items ->
  Forall (fun p : string * string => Str.clear_of k (snd p) = true) items ->
  ~ Str.infix k text -> ~ Str.infix k (Renamer.replace_all items text).
Proof.
  revert text. induction items as [|[old new] items IH]; intros text; [done|].
  intros [Hold Hne]%Forall_cons [Hc Hcs]%Forall_cons Hk. simpl.
  apply IH; [done..|]. by apply StrFacts.str_replace_creates_no.
Qed.

(** The settled tokens are gone after the loop. *)
Lemma settled_gone items text :
  Forall (fun p : string * string => fst p <> "") items ->
  Forall (fun k => ~ Str.infix k (Renamer.replace_all items text)) (settled items).
Proof.
  revert text. induction items as [|[old new] items IH]; intros text; [done|].
  intros [Hold Hne]%Forall_cons.
  cbn [settled]. apply Forall_app. split; [|by apply IH].
  destruct (stays_gone old ((old, new) :: items)) eqn:Hs; [|done].
  apply stays_gone_spec in Hs as [_ [Hc Hcs]%Forall_cons].
  apply Forall_singleton. cbn [Renamer.replace_all].
  apply replace_all_creates_no; [done..|].
  by apply StrFacts.str_replace_eliminates.
Qed.

Lemma keys_nonempty_check items :
  forallb (fun p => negb (String.eqb (fst p) "")) items = true ->
  Forall (fun p : string * string => fst p <> "") items.
Proof.
  rewrite forallb_forall. intros Hall. apply Forall_forall.
  intros p Hp%list_elem_of_In Hk. apply Hall in Hp. by rewrite Hk in Hp.
Qed.

(** The two dictionaries iterate in the order their entries are
    listed. *)
Lemma replacements_items : Dict.items replacements = replacements_listed.
Proof. vm_compute. reflexivity. Qed.

Lemma IMPORT_REPLACEMENTS_items :
  Dict.items IMPORT_REPLACEMENTS = IMPORT_REPLACEMENTS_listed.
Proof. vm_compute. reflexivity. Qed.




End LoopFacts.

(** * Facts about the runs *)

Module OsFacts.
Import Os.

Lemma world_eq (w w' : world) :
  cwd w = cwd w' -> tree w = tree w' -> stdout w = stdout w' ->
  trace w = trace w' -> w = w'.
Proof. destruct w, w'. simpl. by intros -> -> -> ->. Qed.

Global Instance resolve_inj dir : Inj (=) (=) (resolve dir).
Proof.
  intros p q Hpq. unfold resolve in Hpq.
  by apply (inj (String.app "/")), (inj (String.app dir)).
Qed.

Lemma append_assoc (a b c : string) : (a +:+ b) +:+ c = a +:+ b +:+ c.
Proof.
  induction a as [|x a IH]; [done|].
  by rewrite !StrFacts.append_cons, IH.
Qed.

(** *** The files of the loop *)

Lemma listing_exists w p :
  p ∈ listing w <-> is_Some (tree w !! resolve (cwd w) p).
Proof.
  unfold listing. rewrite elem_of_set_omap. split.
  - intros (k & Hk & ->%StrFacts.strip_prefix_Some).
    apply elem_of_dom in Hk. by rewrite append_assoc in Hk.
  - intros Hk. exists (resolve (cwd w) p). split; [by apply elem_of_dom|].
    apply StrFacts.strip_prefix_Some. unfold resolve. by rewrite append_assoc.
Qed.

Lemma files_to_update_exist w p :
  p ∈ files_to_update w -> is_Some (tree w !! resolve (cwd w) p).
Proof.
  unfold files_to_update.
  intros [Hp|Hp]%elem_of_app;
    apply elem_of_elements, elem_of_filter in Hp as [_ Hp];
    by apply listing_exists.
Qed.

Lemma files_to_update_NoDup w : NoDup (files_to_update w).
Proof.
  unfold files_to_update. apply NoDup_app. split; [apply NoDup_elements|].
  split; [|apply NoDup_elements].
  intros p [[_ Hts] _]%elem_of_elements%elem_of_filter
           [[_ Hsv] _]%elem_of_elements%elem_of_filter.
  by eapply StrFacts.endswith_ts_svelte.
Qed.


(** *** Visiting the files *)

Section visits.
Variables (f : string -> string) (msg : string -> string).

Lemma visited_nil w : visited f msg [] w = w.
Proof. apply world_eq; simpl; by rewrite ?app_nil_r. Qed.

Lemma visited_one w p c :
  tree w !! resolve (cwd w) p = Some c ->
  visited f msg [p] w =
  if bool_decide (f c <> c)
  then {| cwd := cwd w; tree := <[resolve (cwd w) p := f c]> (tree w);
          stdout := stdout w ++ [msg p];
          trace := (trace w ++ [ReadText p]) ++ [WriteText p (f c)] |}
  else log (ReadText p) w.
Proof.
  intros Hc. unfold visited, visit_events, changed. simpl. rewrite Hc.
  case_bool_decide as Hf; apply world_eq; simpl; rewrite ?app_nil_r;
    try done.
  - apply map_eq. intros k. rewrite lookup_alter, lookup_insert.
    case_decide; [subst k; by rewrite Hc | done].
  - by rewrite <- app_assoc.
  - apply map_eq. intros k. rewrite lookup_alter.
    case_decide; [subst k; rewrite Hc; simpl; f_equal|done].
    by destruct (decide (f c = c)).
Qed.

Lemma alter_alter_swap (t : gmap string string) i j :
  alter f i (alter f j t) = alter f j (alter f i t).
Proof. destruct (decide (i = j)) as [->|]; [done | by apply alter_alter_ne]. Qed.

Lemma alter_fold_swap dir (t : gmap string string) k ps :
  alter f k (fold_right (fun p t => alter f (resolve dir p) t) t ps) =
  fold_right (fun p t => alter f (resolve dir p) t) (alter f k t) ps.
Proof.
  induction ps as [|p ps IH]; [done|]. simpl.
  by rewrite alter_alter_swap, IH.
Qed.

(** Visiting [p] leaves the other files as they were. *)
Lemma visited_one_other w p q :
  p <> q ->
  tree (visited f msg [p] w) !! resolve (cwd w) q = tree w !! resolve (cwd w) q.
Proof.
  intros Hpq. simpl. rewrite lookup_alter_ne; [done|].
  intros Heq. by apply Hpq, (inj (resolve (cwd w))).
Qed.

Lemma flat_map_ext_in {X Y} (g h : X -> list Y) l :
  (forall x, x ∈ l -> g x = h x) -> flat_map g l = flat_map h l.
Proof.
  induction l as [|x l IH]; intros Hgh; [done|]. simpl.
  rewrite Hgh by left. rewrite IH; [done|]. intros y Hy. apply Hgh. by right.
Qed.

Lemma visited_cons w p ps :
  p ∉ ps -> visited f msg (p :: ps) w = visited f msg ps (visited f msg [p] w).
Proof.
  intros Hp.
  assert (forall q, q ∈ ps ->
    tree (visited f msg [p] w) !! resolve (cwd w) q = tree w !! resolve (cwd w) q)
    as Hother.
  { intros q Hq. apply visited_one_other. by intros ->. }
  apply world_eq.
  - done.
  - cbn [visited tree cwd fold_right]. apply alter_fold_swap.
  - cbn [visited stdout cwd]. rewrite <- app_assoc. f_equal.
    rewrite <- map_app. f_equal.
    change (p :: ps) with ([p] ++ ps). rewrite List.filter_app. f_equal.
    apply filter_ext_in. intros q Hq%list_elem_of_In.
    unfold changed. cbn [cwd]. by rewrite Hother.
  - cbn [visited trace cwd]. rewrite <- app_assoc. f_equal.
    cbn [flat_map]. rewrite app_nil_r. f_equal.
    apply flat_map_ext_in. intros q Hq.
    unfold visit_events. cbn [cwd]. by rewrite Hother.
Qed.

Lemma visited_one_exists w p q :
  is_Some (tree w !! resolve (cwd w) q) ->
  is_Some (tree (visited f msg [p] w) !! resolve (cwd w) q).
Proof.
  simpl. rewrite lookup_alter. case_decide as Hpq; [|done].
  rewrite Hpq. intros [c ->]. by eexists.
Qed.






Lemma changed_visited_one w p q :
  p <> q -> changed f (visited f msg [p] w) q = changed f w q.
Proof.
  intros Hpq. unfold changed. cbn [cwd visited].
  by rewrite (visited_one_other w p q Hpq).
Qed.

Lemma filter_changed_cons w p ps :
  p ∉ ps ->
  List.filter (changed f w) (p :: ps) =
  List.filter (changed f w) [p] ++
  List.filter (changed f (visited f msg [p] w)) ps.
Proof.
  intros Hp. change (p :: ps) with ([p] ++ ps). rewrite List.filter_app.
  f_equal. apply filter_ext_in. intros q Hq%list_elem_of_In.
  symmetry. apply changed_visited_one. by intros ->.
Qed.



Lemma visit_events_no_chdir w ps :
  Forall (fun ev => is_chdir ev = false) (flat_map (visit_events f w) ps).
Proof.
  induction ps as [|p ps IH]; [done|]. cbn [flat_map].
  apply Forall_app. split; [|done]. unfold visit_events.
  destruct (tree w !! resolve (cwd w) p) as [c|]; [case_bool_decide|];
    repeat constructor.
Qed.

End visits.

(** *** The loops over the files *)



Lemma fixer_update_file w p n :
  is_Some (tree w !! resolve (cwd w) p) ->
  Fixer.update_file n p w =
  Returned (n + length (List.filter (changed Fixer.update_content w) [p]))
           (visited Fixer.update_content fixer_report [p] w).
Proof.
  intros [c Hc]. rewrite (visited_one _ _ _ _ c Hc).
  unfold Fixer.update_file, bind, read_text, changed. cbn [List.filter].
  rewrite Hc. case_bool_decide; cbn [length]; [done|].
  by rewrite Nat.add_0_r.
Qed.

Lemma fixer_loop ps w n :
  NoDup ps -> (forall p, p ∈ ps -> is_Some (tree w !! resolve (cwd w) p)) ->
  for_each ps Fixer.update_file n w =
  Returned (n + length (List.filter (changed Fixer.update_content w) ps))
           (visited Fixer.update_content fixer_report ps w).
Proof.
  revert w n. induction ps as [|p ps IH]; intros w n Hnd Hex.
  - rewrite visited_nil. cbn. by rewrite Nat.add_0_r.
  - apply NoDup_cons in Hnd as [Hp Hnd]. cbn [for_each]. unfold bind.
    rewrite fixer_update_file by (apply Hex; by left).
    rewrite IH; [|done|].
    + rewrite <- visited_cons by done.
      rewrite (filter_changed_cons _ fixer_report w p ps Hp), length_app.
      by rewrite Nat.add_assoc.
    + intros q Hq. apply (visited_one_exists _ _ w p q), Hex. by right.
Qed.

(** *** The second pass and the Import Fixer, in closed form *)


Lemma fixer_main_run file dir t :
  let w0 := fixer_started file dir t in
  let w2 := visited Fixer.update_content fixer_report
              (files_to_update w0) (globbed w0) in
  let n := length (List.filter (changed Fixer.update_content w0) (files_to_update w0)) in
  Fixer.main file (start dir t) =
  Returned tt
    {| cwd := cwd w2; tree := tree w2;
       stdout := stdout w2 ++
         [Str.nl +:+ "✓ Fixed imports in " +:+ Str.of_nat n +:+ " files!"];
       trace := trace w2 |}.
Proof.
  intros w0 w2 n. unfold Fixer.main, bind, rglob, chdir, print.
  change (for_each _ Fixer.update_file 0 _)
    with (for_each (files_to_update w0) Fixer.update_file 0 (globbed w0)).
  rewrite fixer_loop; [done|apply files_to_update_NoDup|].
  intros p Hp. by apply files_to_update_exist.
Qed.

(** *** The first pass, pair by pair *)

Lemma for_each_app {A S} (xs ys : list A) (body : S -> A -> M S) acc w :
  for_each (xs ++ ys) body acc w =
  match for_each xs body acc w with
  | Returned acc' w' => for_each ys body acc' w'
  | Raised e w' => Raised e w'
  end.
Proof.
  revert acc w. induction xs as [|x xs IH]; intros acc w; [done|].
  cbn [app for_each]. unfold bind. destruct (body acc x w); [apply IH|done].
Qed.

Lemma rename_one_missing e w src dest :
  tree w !! resolve (cwd w) src = None ->
  Renamer.rename_one e tt (src, dest) w =
  Returned tt
    {| cwd := cwd w; tree := tree w;
       stdout := stdout w ++ ["Warning: File not found: " +:+ src];
       trace := trace w ++ [Exists src] |}.
Proof.
  intros Hsrc. unfold Renamer.rename_one, bind, path_exists.
  rewrite Hsrc, bool_decide_false; [done|]. by intros [? ?].
Qed.

Lemma rename_one_fallback e w src dest c :
  tree w !! resolve (cwd w) src = Some c ->
  git_mv_answer e (tree w) (resolve (cwd w) src) (resolve (cwd w) dest)
    = GitExitNonZero ->
  rename_refused e (tree w) (resolve (cwd w) src) (resolve (cwd w) dest)
    = false ->
  Renamer.rename_one e tt (src, dest) w =
  Returned tt
    {| cwd := cwd w;
       tree := <[resolve (cwd w) dest := c]> (delete (resolve (cwd w) src) (tree w));
       stdout := stdout w ++ ["Renaming: " +:+ src +:+ " -> " +:+ dest];
       trace := trace w ++ [Exists src; GitMv src dest; Rename src dest] |}.
Proof.
  intros Hsrc Hgit Hos.
  unfold Renamer.rename_one, bind, path_exists.
  rewrite Hsrc, bool_decide_true by by eexists.
  unfold print, try_except_CalledProcessError, git_mv. cbn.
  rewrite Hgit. unfold path_rename, moved. cbn. rewrite Hsrc, Hos.
  f_equal. apply world_eq; cbn; try done. by rewrite <- !app_assoc.
Qed.

Lemma rename_one_not_started e w src dest c :
  tree w !! resolve (cwd w) src = Some c ->
  git_mv_answer e (tree w) (resolve (cwd w) src) (resolve (cwd w) dest)
    = GitNotStarted ->
  Renamer.rename_one e tt (src, dest) w =
  Raised OSError
    {| cwd := cwd w; tree := tree w;
       stdout := stdout w ++ ["Renaming: " +:+ src +:+ " -> " +:+ dest];
       trace := trace w ++ [Exists src; GitMv src dest] |}.
Proof.
  intros Hsrc Hgit.
  unfold Renamer.rename_one, bind, path_exists.
  rewrite Hsrc, bool_decide_true by by eexists.
  unfold print, try_except_CalledProcessError, git_mv. cbn.
  rewrite Hgit. f_equal. apply world_eq; cbn; try done.
  by rewrite <- !app_assoc.
Qed.

(** *** Staying in the directory *)

Lemma stays_put_ret {A} (a : A) : stays_put (ret a).
Proof. intros w. split; [done|]. exists []. by rewrite app_nil_r. Qed.

Lemma stays_put_bind {A B} (m : M A) (k : A -> M B) :
  stays_put m -> (forall a, stays_put (k a)) -> stays_put (bind m k).
Proof.
  intros Hm Hk w. unfold bind.
  destruct (Hm w) as (Hc & evs & Ht & Hevs).
  destruct (m w) as [a w1|e w1]; cbn in Hc, Ht.
  - destruct (Hk a w1) as (Hc' & evs' & Ht' & Hevs').
    split; [congruence|]. exists (evs ++ evs').
    rewrite Ht', Ht, app_assoc. split; [done|]. by apply Forall_app.
  - split; [done|]. by exists evs.
Qed.

Lemma stays_put_log {A} (m : M A) ev :
  is_chdir ev = false ->
  (forall w, final (m w) = log ev w) -> stays_put m.
Proof.
  intros Hev Hm w. rewrite Hm. split; [done|]. exists [ev]. split; [done|].
  by constructor.
Qed.

Lemma stays_put_print line : stays_put (print line).
Proof. intros w. split; [done|]. exists []. by rewrite app_nil_r. Qed.

Lemma stays_put_path_exists p : stays_put (path_exists p).
Proof. by apply (stays_put_log _ (Exists p)). Qed.

Lemma stays_put_git_mv e src dest : stays_put (git_mv e src dest).
Proof.
  intros w. unfold git_mv.
  destruct (git_mv_answer e _ _ _); (split; [done|]);
    exists [GitMv src dest]; (split; [done|]); by constructor.
Qed.

Lemma stays_put_path_rename e src dest : stays_put (path_rename e src dest).
Proof.
  intros w. unfold path_rename.
  destruct (tree w !! _); [destruct (rename_refused e _ _ _)|];
    (split; [done|]); exists [Rename src dest]; (split; [done|]);
    by constructor.
Qed.

Lemma stays_put_rglob dir suffix : stays_put (rglob dir suffix).
Proof. by apply (stays_put_log _ (Rglob dir ("*" +:+ suffix))). Qed.

Lemma stays_put_read_text p : stays_put (read_text p).
Proof.
  apply (stays_put_log _ (ReadText p)); [done|].
  intros w. unfold read_text. by destruct (tree w !! _).
Qed.

Lemma stays_put_write_text p c : stays_put (write_text p c).
Proof.
  intros w. split; [done|]. exists [WriteText p c]. split; [done|].
  by constructor.
Qed.

Lemma stays_put_try body handler :
  stays_put body -> stays_put handler ->
  stays_put (try_except_CalledProcessError body handler).
Proof.
  intros Hb Hh w. unfold try_except_CalledProcessError.
  destruct (Hb w) as (Hc & evs & Ht & Hevs).
  destruct (body w) as [a w1|[] w1]; cbn in Hc, Ht.
  - split; [done|]. by exists evs.
  - destruct (Hh w1) as (Hc' & evs' & Ht' & Hevs').
    split; [congruence|]. exists (evs ++ evs').
    rewrite Ht', Ht, app_assoc. split; [done|]. by apply Forall_app.
  - split; [done|]. by exists evs.
Qed.

Lemma stays_put_for_each {A S} (xs : list A) (body : S -> A -> M S) acc :
  (forall acc x, stays_put (body acc x)) -> stays_put (for_each xs body acc).
Proof.
  intros Hbody. revert acc. induction xs as [|x xs IH]; intros acc.
  - apply stays_put_ret.
  - cbn [for_each]. by apply stays_put_bind.
Qed.

Lemma stays_put_rename_one e acc pair : stays_put (Renamer.rename_one e acc pair).
Proof.
  destruct pair as [src dest]. unfold Renamer.rename_one.
  apply stays_put_bind; [apply stays_put_path_exists|]. intros [].
  - apply stays_put_bind; [apply stays_put_print|]. intros _.
    apply stays_put_try; [apply stays_put_git_mv|apply stays_put_path_rename].
  - apply stays_put_print.
Qed.

Lemma stays_put_renamer_update_file acc p : stays_put (Renamer.update_file acc p).
Proof.
  unfold Renamer.update_file.
  apply stays_put_bind; [apply stays_put_read_text|]. intros c.
  case_bool_decide; [|apply stays_put_ret].
  apply stays_put_bind; [apply stays_put_write_text|]. intros _.
  apply stays_put_print.
Qed.

Lemma stays_put_second_pass : stays_put Renamer.second_pass.
Proof.
  unfold Renamer.second_pass.
  apply stays_put_bind; [apply stays_put_rglob|]. intros ts.
  apply stays_put_bind; [apply stays_put_rglob|]. intros sv.
  apply stays_put_bind.
  { apply stays_put_for_each. apply stays_put_renamer_update_file. }
  intros _. apply stays_put_bind; [apply stays_put_print|]. intros _.
  apply stays_put_print.
Qed.

Lemma stays_put_fixer_update_file acc p : stays_put (Fixer.update_file acc p).
Proof.
  unfold Fixer.update_file.
  apply stays_put_bind; [apply stays_put_read_text|]. intros c.
  case_bool_decide; [|apply stays_put_ret].
  apply stays_put_bind; [apply stays_put_write_text|]. intros _.
  apply stays_put_bind; [apply stays_put_print|]. intros _.
  apply stays_put_ret.
Qed.

(** After [chdir], a script that stays put has made that one [chdir]. *)
Lemma chdir_then {A} root (m : M A) dir t :
  stays_put m ->
  let w := final (bind (chdir root) (fun _ => m) (start dir t)) in
  cwd w = enter dir root /\
  exists evs, trace w = Chdir (path_str root) :: evs /\
              Forall (fun ev => is_chdir ev = false) evs.
Proof.
  intros Hm. unfold bind, chdir. cbn.
  match goal with |- context [m ?w0] => destruct (Hm w0) as (Hc & evs & Ht & Hevs) end.
  destruct (m _) as [a w1|e w1]; cbn in *; (split; [done|]); by exists evs.
Qed.

End OsFacts.

(** * The properties *)

Import Os.

(** ** The replacement loops *)

Lemma settled_replacements :
  settled (Dict.items replacements) = tail always_gone.
Proof. vm_compute. reflexivity. Qed.

Lemma replacements_keys_nonempty :
  Forall (fun p : string * string => fst p <> "") (Dict.items replacements).
Proof. apply LoopFacts.keys_nonempty_check. vm_compute. reflexivity. Qed.

(** C1, as the code has it: the table of the Renamer's second pass has
    40 old file names. For 19 of them, whatever the text, the rewritten
    text does not hold the name; these are [BubbleMenu.svelte] and the
    18 entries from [IFramePlaceHolder.svelte] on. Each of the other 21
    is held by the rewriting of some text: a later new name (or, for
    [EdraToolTip.svelte], its own) completes it, as in
    [IFrame.t] followed by [slash-command-list.svelte]. *)
Theorem renamer_old_names_after_update :
  length (Dict.items replacements) = 40 /\
  old_tokens (Dict.items replacements) ≡ₚ always_gone ++ map fst may_remain /\
  (forall text,
     Forall (fun k => ~ Str.infix k (Renamer.update_content text)) always_gone) /\
  Forall (fun kt => Str.infix (fst kt) (Renamer.update_content (snd kt)))
         may_remain.
Proof.
  split; [by vm_compute|]. split.
  { apply (bool_decide_unpack _). by vm_compute. }
  split.
  - intros text.
    pose proof (LoopFacts.settled_gone (Dict.items replacements) text
                  replacements_keys_nonempty) as Hgone.
    rewrite settled_replacements in Hgone.
    change always_gone with ("BubbleMenu.svelte" :: tail always_gone).
    apply Forall_cons. split; [|exact Hgone].
    intros Hbubble.
    assert (Str.infix "Menu.svelte" "BubbleMenu.svelte") as Hmenu
      by (by exists "Bubble", "").
    pose proof (StrFacts.str_infix_trans _ _ _ Hmenu Hbubble) as Hin.
    revert Hin. eapply (proj1 (Forall_forall _ _) Hgone).
    apply (bool_decide_unpack _). by vm_compute.
  - apply Forall_forall. intros [k text] Hin.
    apply StrFacts.str_contains_infix.
    assert (forallb (fun kt => Str.contains (fst kt) (Renamer.update_content (snd kt)))
                    may_remain = true) as Hall by (by vm_compute).
    rewrite forallb_forall in Hall. apply (Hall (k, text)).
    by apply list_elem_of_In.
Qed.

(** C1, as stated, fails: [IFrame.ts] is one of the old names and the
    rewriting of [IFrame.tSlashCommandList.svelte] holds it. *)
Lemma renamer_old_name_survives :
  "IFrame.ts" ∈ old_tokens (Dict.items replacements) /\
  Renamer.update_content "IFrame.tSlashCommandList.svelte"
    = "IFrame.tslash-command-list.svelte" /\
  Str.infix "IFrame.ts" (Renamer.update_content "IFrame.tSlashCommandList.svelte").
Proof.
  split; [apply (bool_decide_unpack _); by vm_compute|].
  split; [by vm_compute|].
  apply StrFacts.str_contains_infix. by vm_compute.
Qed.

(** C7: for every text, what each script does to the contents of a file
    is the left fold of literal replacement over the pairs of its table
    in the order they are listed; the accumulator of the fold is the
    text as rewritten so far. *)
Theorem update_content_is_left_fold (text : string) :
  Renamer.update_content text = replace_fold replacements_listed text /\
  Fixer.update_content text = replace_fold IMPORT_REPLACEMENTS_listed text.
Proof.
  unfold Renamer.update_content, Fixer.update_content.
  rewrite LoopFacts.replace_present_all, !LoopFacts.replace_all_fold.
  by rewrite LoopFacts.replacements_items, LoopFacts.IMPORT_REPLACEMENTS_items.
Qed.

(** A later pair does act on what an earlier pair wrote: [Menu.svelte]
    is not in the text below before [EdraToolTip.svelte] is replaced. *)
Example later_pair_sees_earlier_output :
  Str.contains "Menu.svelte" "Menu.sveltEdraToolTip.svelte" = false /\
  Renamer.update_content "Menu.sveltEdraToolTip.svelte"
    = "menu.sveltedra-tooltip.svelte".
Proof. by vm_compute. Qed.

(** C9: the Import Fixer turns [import X from './VideoExtension.js']
    into [import X from './video-extension.js'], which is what the one
    pair [VideoExtension.js -> video-extension.js] does to it; a file
    with that text holds the new text after a run. *)
Theorem fixer_rewrites_video_extension_import :
  Fixer.update_content "import X from './VideoExtension.js'"
    = "import X from './video-extension.js'" /\
  Str.replace "import X from './VideoExtension.js'"
      "VideoExtension.js" "video-extension.js"
    = "import X from './video-extension.js'" /\
  tree (final (Fixer.main
                 {| absolute := true;
                    parts := ["repo"; "scripts"; "fix-edra-imports.py"] |}
                 (start "/home"
                    {[ "/repo/src/lib/components/edra/editor.ts"
                         := "import X from './VideoExtension.js'" ]})))
    = {[ "/repo/src/lib/components/edra/editor.ts"
           := "import X from './video-extension.js'" ]}.
Proof.
  split; [by vm_compute|]. split; [by vm_compute|].
  apply (bool_decide_unpack _). by vm_compute.
Qed.

(** C10: for every list of pairs and every text, the loop that replaces
    a pair only when its old token occurs in the contents gives what the
    loop that always replaces gives. *)
Theorem guard_never_changes_result (items : list (string * string)) (text : string) :
  Fixer.replace_present items text = Renamer.replace_all items text /\
  Fixer.update_content text
    = Renamer.replace_all (Dict.items IMPORT_REPLACEMENTS) text.
Proof. split; apply LoopFacts.replace_present_all. Qed.

(** ** A second run of the Import Fixer *)




(** ** What the passes write *)



(** ** What the Renamer prints *)



(** ** The first pass of the Renamer *)

(** The loop reaches a pair with the world its predecessors left. *)
Lemma first_pass_at e pre pair post w w1 :
  RENAMES = pre ++ pair :: post ->
  for_each pre (Renamer.rename_one e) tt w = Returned tt w1 ->
  Renamer.first_pass e w =
  match Renamer.rename_one e tt pair w1 with
  | Returned _ w2 => for_each post (Renamer.rename_one e) tt w2
  | Raised ex w2 => Raised ex w2
  end.
Proof.
  intros Hlist Hpre. unfold Renamer.first_pass.
  rewrite Hlist, OsFacts.for_each_app, Hpre.
  cbn [for_each]. unfold bind.
  by destruct (Renamer.rename_one e tt pair w1) as [[] ?|].
Qed.

(** C3, as the code has it: when the loop reaches a pair whose source
    exists, [git mv] exits with an error and the operating system does
    not refuse the rename, the source is moved to the destination by
    the plain rename and the loop goes on with the pairs that follow. *)
Theorem git_exit_failure_falls_back_to_rename e pre src dest post w w1 c :
  RENAMES = pre ++ (src, dest) :: post ->
  for_each pre (Renamer.rename_one e) tt w = Returned tt w1 ->
  tree w1 !! resolve (cwd w1) src = Some c ->
  git_mv_answer e (tree w1) (resolve (cwd w1) src) (resolve (cwd w1) dest)
    = GitExitNonZero ->
  rename_refused e (tree w1) (resolve (cwd w1) src) (resolve (cwd w1) dest)
    = false ->
  Renamer.rename_one e tt (src, dest) w1
    = Returned tt (renamed_by_fallback src dest c w1) /\
  Renamer.first_pass e w
    = for_each post (Renamer.rename_one e) tt (renamed_by_fallback src dest c w1).
Proof.
  intros Hlist Hpre Hsrc Hgit Hos.
  pose proof (OsFacts.rename_one_fallback e w1 src dest c Hsrc Hgit Hos) as Hone.
  split; [exact Hone|].
  rewrite (first_pass_at e pre (src, dest) post w w1 Hlist Hpre).
  unfold renamed_by_fallback. by rewrite Hone.
Qed.

Lemma git_exit_failure_falls_back_to_rename_witness :
  (RENAMES = [] ++ (media_src, media_dest) :: tail RENAMES /\
   for_each [] (Renamer.rename_one git_exits) tt (start "/repo" media_tree)
     = Returned tt (start "/repo" media_tree) /\
   tree (start "/repo" media_tree)
     !! resolve (cwd (start "/repo" media_tree)) media_src = Some "<div/>" /\
   git_mv_answer git_exits (tree (start "/repo" media_tree))
     (resolve (cwd (start "/repo" media_tree)) media_src)
     (resolve (cwd (start "/repo" media_tree)) media_dest) = GitExitNonZero /\
   rename_refused git_exits (tree (start "/repo" media_tree))
     (resolve (cwd (start "/repo" media_tree)) media_src)
     (resolve (cwd (start "/repo" media_tree)) media_dest) = false) /\
  (Renamer.rename_one git_exits tt (media_src, media_dest) (start "/repo" media_tree)
     = Returned tt
         (renamed_by_fallback media_src media_dest "<div/>" (start "/repo" media_tree)) /\
   Renamer.first_pass git_exits (start "/repo" media_tree)
     = for_each (tail RENAMES) (Renamer.rename_one git_exits) tt
         (renamed_by_fallback media_src media_dest "<div/>" (start "/repo" media_tree))).
Proof.
  assert (tree (start "/repo" media_tree)
            !! resolve (cwd (start "/repo" media_tree)) media_src = Some "<div/>")
    as Hsrc by (vm_compute; reflexivity).
  split.
  - repeat split; first [reflexivity | exact Hsrc].
  - apply (git_exit_failure_falls_back_to_rename git_exits [] media_src
             media_dest (tail RENAMES) (start "/repo" media_tree)
             (start "/repo" media_tree) "<div/>");
      [reflexivity | reflexivity | exact Hsrc | reflexivity | reflexivity].
Defined.

(** C3, as stated, fails: where [git] cannot be launched the failure is
    not a [CalledProcessError]; the run ends with it at the first pair
    whose source exists, no rename is made and the file is where it
    was. *)
Lemma git_not_started_ends_run :
  Renamer.main no_git renamer_script (start "/home" media_tree)
    = Raised OSError
        (final (Renamer.main no_git renamer_script (start "/home" media_tree))) /\
  trace (final (Renamer.main no_git renamer_script (start "/home" media_tree)))
    = [Chdir "/repo"; Exists media_src; GitMv media_src media_dest] /\
  tree (final (Renamer.main no_git renamer_script (start "/home" media_tree)))
    = media_tree.
Proof.
  split; [by vm_compute|]. split; [by vm_compute|].
  apply (bool_decide_unpack _). by vm_compute.
Qed.

(** The same for every pair: a launch failure ends the run there,
    before any rename. *)
Lemma git_not_started_propagates e pre src dest post w w1 c :
  RENAMES = pre ++ (src, dest) :: post ->
  for_each pre (Renamer.rename_one e) tt w = Returned tt w1 ->
  tree w1 !! resolve (cwd w1) src = Some c ->
  git_mv_answer e (tree w1) (resolve (cwd w1) src) (resolve (cwd w1) dest)
    = GitNotStarted ->
  exists w2, Renamer.first_pass e w = Raised OSError w2 /\
             tree w2 = tree w1 /\
             trace w2 = trace w1 ++ [Exists src; GitMv src dest].
Proof.
  intros Hlist Hpre Hsrc Hgit.
  rewrite (first_pass_at e pre (src, dest) post w w1 Hlist Hpre).
  rewrite (OsFacts.rename_one_not_started e w1 src dest c Hsrc Hgit).
  by eexists.
Qed.

(** C6: when the loop reaches a pair whose source does not exist, it
    prints the warning, raises nothing, leaves the tree as it is (the
    destination is neither made nor removed) and goes on with the pairs
    that follow. *)
Theorem missing_source_is_warned_and_skipped e pre src dest post w w1 :
  RENAMES = pre ++ (src, dest) :: post ->
  for_each pre (Renamer.rename_one e) tt w = Returned tt w1 ->
  tree w1 !! resolve (cwd w1) src = None ->
  Renamer.rename_one e tt (src, dest) w1 = Returned tt (warned src w1) /\
  stdout (warned src w1) = stdout w1 ++ ["Warning: File not found: " +:+ src] /\
  tree (warned src w1) !! resolve (cwd (warned src w1)) dest
    = tree w1 !! resolve (cwd w1) dest /\
  tree (warned src w1) = tree w1 /\
  Renamer.first_pass e w
    = for_each post (Renamer.rename_one e) tt (warned src w1).
Proof.
  intros Hlist Hpre Hsrc.
  pose proof (OsFacts.rename_one_missing e w1 src dest Hsrc) as Hone.
  split; [exact Hone|]. repeat split.
  rewrite (first_pass_at e pre (src, dest) post w w1 Hlist Hpre).
  unfold warned. by rewrite Hone.
Qed.

Lemma missing_source_is_warned_and_skipped_witness :
  (RENAMES = [] ++ (media_src, media_dest) :: tail RENAMES /\
   for_each [] (Renamer.rename_one no_git) tt (start "/repo" editor_tree)
     = Returned tt (start "/repo" editor_tree) /\
   tree (start "/repo" editor_tree)
     !! resolve (cwd (start "/repo" editor_tree)) media_src = None) /\
  (Renamer.rename_one no_git tt (media_src, media_dest) (start "/repo" editor_tree)
     = Returned tt (warned media_src (start "/repo" editor_tree)) /\
   stdout (warned media_src (start "/repo" editor_tree))
     = stdout (start "/repo" editor_tree)
       ++ ["Warning: File not found: " +:+ media_src] /\
   tree (warned media_src (start "/repo" editor_tree))
     !! resolve (cwd (warned media_src (start "/repo" editor_tree))) media_dest
     = tree (start "/repo" editor_tree)
       !! resolve (cwd (start "/repo" editor_tree)) media_dest /\
   tree (warned media_src (start "/repo" editor_tree))
     = tree (start "/repo" editor_tree) /\
   Renamer.first_pass no_git (start "/repo" editor_tree)
     = for_each (tail RENAMES) (Renamer.rename_one no_git) tt
         (warned media_src (start "/repo" editor_tree))).
Proof.
  assert (tree (start "/repo" editor_tree)
            !! resolve (cwd (start "/repo" editor_tree)) media_src = None)
    as Hsrc by (vm_compute; reflexivity).
  split.
  - repeat split; first [reflexivity | exact Hsrc].
  - apply (missing_source_is_warned_and_skipped no_git [] media_src media_dest
             (tail RENAMES) (start "/repo" editor_tree) (start "/repo" editor_tree));
      [reflexivity | reflexivity | exact Hsrc].
Defined.

(** ** The working directory *)

(** C5, as the code has it: each script first changes the working
    directory to the parent of the directory that holds the script,
    [Path(__file__).parent.parent]; it makes no other [chdir], and it
    is in that directory however the run ends. *)
Theorem scripts_enter_parent_of_script_directory e file dir t :
  (cwd (final (Renamer.main e file (start dir t)))
     = enter dir (parent (parent file)) /\
   exists evs,
     trace (final (Renamer.main e file (start dir t)))
       = Chdir (path_str (parent (parent file))) :: evs /\
     Forall (fun ev => is_chdir ev = false) evs) /\
  (cwd (final (Fixer.main file (start dir t)))
     = enter dir (parent (parent file)) /\
   exists evs,
     trace (final (Fixer.main file (start dir t)))
       = Chdir (path_str (parent (parent file))) :: evs /\
     Forall (fun ev => is_chdir ev = false) evs).
Proof.
  split.
  - apply (OsFacts.chdir_then (parent (parent file))).
    apply OsFacts.stays_put_bind; [apply OsFacts.stays_put_print|]. intros _.
    apply OsFacts.stays_put_bind.
    { apply OsFacts.stays_put_for_each. apply OsFacts.stays_put_rename_one. }
    intros _.
    apply OsFacts.stays_put_bind; [apply OsFacts.stays_put_print|]. intros _.
    apply OsFacts.stays_put_bind; [apply OsFacts.stays_put_print|]. intros _.
    apply OsFacts.stays_put_second_pass.
  - apply (OsFacts.chdir_then (parent (parent file))).
    apply OsFacts.stays_put_bind; [apply OsFacts.stays_put_print|]. intros _.
    apply OsFacts.stays_put_bind; [apply OsFacts.stays_put_rglob|]. intros ts.
    apply OsFacts.stays_put_bind; [apply OsFacts.stays_put_rglob|]. intros sv.
    apply OsFacts.stays_put_bind.
    { apply OsFacts.stays_put_for_each. apply OsFacts.stays_put_fixer_update_file. }
    intros n. apply OsFacts.stays_put_print.
Qed.

(** C5, as stated, fails: the scripts lie in [/repo/scripts], and the
    directory they work in is [/repo]. *)
Lemma scripts_do_not_enter_script_directory :
  path_str (parent fixer_script) = "/repo/scripts" /\
  path_str (parent renamer_script) = "/repo/scripts" /\
  cwd (final (Fixer.main fixer_script (start "/home" editor_tree))) = "/repo" /\
  cwd (final (Renamer.main git_exits renamer_script (start "/home" editor_tree)))
    = "/repo" /\
  head (trace (final (Fixer.main fixer_script (start "/home" editor_tree))))
    = Some (Chdir "/repo") /\
  head (trace (final (Renamer.main git_exits renamer_script
                        (start "/home" editor_tree))))
    = Some (Chdir "/repo").
Proof. repeat split; by vm_compute. Qed.

(** * Further properties *)

(** ** Moving files *)

Lemma moved_lookup_src a b (t : gmap string string) :
  a <> b -> moved a b t !! a = None.
Proof.
  intros Hab. unfold moved. destruct (t !! a) as [c|] eqn:Ha; [|done].
  by rewrite lookup_insert_ne, lookup_delete_eq.
Qed.

Lemma moved_lookup_dest a b (t : gmap string string) :
  moved a b t !! b = match t !! a with Some c => Some c | None => t !! b end.
Proof.
  unfold moved. destruct (t !! a) as [c|]; [|done]. by rewrite lookup_insert_eq.
Qed.

Lemma moved_lookup_other a b k (t : gmap string string) :
  k <> a -> k <> b -> moved a b t !! k = t !! k.
Proof.
  intros Ha Hb. unfold moved. destruct (t !! a) as [c|]; [|done].
  by rewrite lookup_insert_ne, lookup_delete_ne.
Qed.

(** A move neither edits nor invents a text. *)
Lemma moved_text a b k c (t : gmap string string) :
  moved a b t !! k = Some c -> exists k', t !! k' = Some c.
Proof.
  unfold moved. destruct (t !! a) as [c0|] eqn:Ha; [|by exists k].
  destruct (decide (k = b)) as [->|Hkb].
  - rewrite lookup_insert_eq. intros [= <-]. by exists a.
  - rewrite lookup_insert_ne by done.
    intros Hk%lookup_delete_Some. exists k. by destruct Hk.
Qed.

(** What one pair of the first loop can do to the tree, whatever the
    environment and however it ends: nothing, or the move. *)
Lemma rename_one_tree e w src dest :
  cwd (final (Renamer.rename_one e tt (src, dest) w)) = cwd w /\
  (tree (final (Renamer.rename_one e tt (src, dest) w)) = tree w \/
   tree (final (Renamer.rename_one e tt (src, dest) w))
     = moved (resolve (cwd w) src) (resolve (cwd w) dest) (tree w)).
Proof.
  unfold Renamer.rename_one, bind, path_exists.
  case_bool_decide as Hsrc; cbn.
  - unfold try_except_CalledProcessError, git_mv. cbn.
    destruct (git_mv_answer e _ _ _); cbn; [by auto| |by auto].
    unfold path_rename. cbn. destruct (tree w !! _); cbn; [|by auto].
    destruct (rename_refused e _ _ _); cbn; by auto.
  - by auto.
Qed.

(** In a cooperative environment a pair always ends with the move
    made (which is no change when the source is missing). *)
Lemma rename_one_cooperative e w src dest :
  cooperative e ->
  exists w', Renamer.rename_one e tt (src, dest) w = Returned tt w' /\
             cwd w' = cwd w /\
             tree w' = moved (resolve (cwd w) src) (resolve (cwd w) dest) (tree w).
Proof.
  intros Hco. destruct (Hco (tree w) (resolve (cwd w) src) (resolve (cwd w) dest))
    as [Hgit Hos].
  unfold Renamer.rename_one, bind, path_exists.
  case_bool_decide as Hsrc; cbn.
  - destruct Hsrc as [c Hc].
    unfold try_except_CalledProcessError, git_mv. cbn.
    destruct (git_mv_answer e _ _ _); cbn; [by eexists| |done].
    unfold path_rename. cbn. rewrite Hc, Hos. cbn. by eexists.
  - eexists. repeat split. cbn. unfold moved.
    destruct (tree w !! _) as [c|] eqn:Hc; [|done].
    exfalso. apply Hsrc. by eexists.
Qed.

Lemma first_loop_cooperative e pairs w :
  cooperative e ->
  exists w', for_each pairs (Renamer.rename_one e) tt w = Returned tt w' /\
             cwd w' = cwd w /\
             tree w' = moves (cwd w) pairs (tree w).
Proof.
  intros Hco. revert w. induction pairs as [|[src dest] pairs IH]; intros w.
  - by exists w.
  - destruct (rename_one_cooperative e w src dest Hco) as (w1 & Hone & Hc1 & Ht1).
    destruct (IH w1) as (w2 & Hrest & Hc2 & Ht2).
    exists w2. cbn [for_each]. unfold bind. rewrite Hone.
    split; [done|]. split; [congruence|].
    rewrite Ht2, Hc1, Ht1. done.
Qed.

(** *** The tree after the moves *)

Lemma moves_lookup_other dir pairs t k :
  k ∉ resolve dir <$> names pairs ->
  moves dir pairs t !! k = t !! k.
Proof.
  revert t. induction pairs as [|[s d] pairs IH]; intros t Hk; [done|].
  cbn [moves fold_left fst snd].
  assert ((k <> resolve dir s) /\ (k <> resolve dir d) /\
          (k ∉ resolve dir <$> names pairs)) as (Hs & Hd & Hrest).
  { unfold names in *. cbn [map fst snd app] in Hk.
    rewrite fmap_cons, fmap_app, not_elem_of_cons, not_elem_of_app in Hk.
    rewrite fmap_cons, not_elem_of_cons in Hk.
    destruct Hk as (Hs & Hsrcs & Hd & Hdests).
    repeat split; [done..|]. rewrite fmap_app, not_elem_of_app. done. }
  change (moves dir pairs (moved (resolve dir s) (resolve dir d) t) !! k = t !! k).
  rewrite IH by done. by apply moved_lookup_other.
Qed.

Lemma names_cons s d pairs x :
  x ∈ names ((s, d) :: pairs) <-> (x = s) \/ (x = d) \/ (x ∈ names pairs).
Proof.
  unfold names. cbn [map fst snd app].
  rewrite elem_of_cons, !elem_of_app, elem_of_cons. tauto.
Qed.

Lemma NoDup_names_cons s d pairs :
  NoDup (names ((s, d) :: pairs)) ->
  s <> d /\ (s ∉ names pairs) /\ (d ∉ names pairs) /\ NoDup (names pairs).
Proof.
  unfold names. cbn [map fst snd app].
  intros [Hs Hnd]%NoDup_cons.
  apply NoDup_app in Hnd as (Hsrcs & Hdisj & Hdests).
  apply NoDup_cons in Hdests as [Hd Hdests].
  rewrite not_elem_of_app, not_elem_of_cons in Hs. destruct Hs as (Hs1 & Hsd & Hs2).
  repeat split.
  - done.
  - by apply not_elem_of_app.
  - apply not_elem_of_app. split; [|done].
    intros Hin. apply (Hdisj d Hin). by left.
  - apply NoDup_app. repeat split; [done| |done].
    intros x Hx Hx'. apply (Hdisj x Hx). by right.
Qed.

Lemma elem_of_names_l s d pairs : (s, d) ∈ pairs -> s ∈ names pairs.
Proof.
  intros Hin. unfold names. apply elem_of_app. left.
  apply list_elem_of_fmap. by exists (s, d).
Qed.

Lemma elem_of_names_r s d pairs : (s, d) ∈ pairs -> d ∈ names pairs.
Proof.
  intros Hin. unfold names. apply elem_of_app. right.
  apply list_elem_of_fmap. by exists (s, d).
Qed.

Lemma not_elem_of_resolve dir x (l : list string) :
  x ∉ l -> resolve dir x ∉ resolve dir <$> l.
Proof.
  intros Hx (y & Heq & Hy)%list_elem_of_fmap.
  apply (inj (resolve dir)) in Heq. by subst.
Qed.

(** With all names distinct: every source is gone, and a destination
    holds the text of its source when there was one and is as it was
    when there was none. *)
Lemma moves_lookup_pair dir pairs t s d :
  NoDup (names pairs) -> (s, d) ∈ pairs ->
  moves dir pairs t !! resolve dir s = None /\
  moves dir pairs t !! resolve dir d =
    match t !! resolve dir s with
    | Some c => Some c
    | None => t !! resolve dir d
    end.
Proof.
  revert t. induction pairs as [|[s0 d0] pairs IH]; intros t Hnd Hin.
  { by apply elem_of_nil in Hin. }
  apply NoDup_names_cons in Hnd as (Hsd & Hs0 & Hd0 & Hnd).
  change (moves dir ((s0, d0) :: pairs) t)
    with (moves dir pairs (moved (resolve dir s0) (resolve dir d0) t)).
  assert (resolve dir s0 <> resolve dir d0) as Hkeys
    by (intros Heq; by apply Hsd, (inj (resolve dir))).
  apply elem_of_cons in Hin as [[= -> ->]|Hin].
  - rewrite !moves_lookup_other by by apply not_elem_of_resolve.
    split; [by apply moved_lookup_src | apply moved_lookup_dest].
  - destruct (IH (moved (resolve dir s0) (resolve dir d0) t) Hnd Hin) as [Hsrc Hdest].
    split; [done|]. rewrite Hdest.
    assert (s <> s0 /\ s <> d0 /\ d <> s0 /\ d <> d0) as (? & ? & ? & ?).
    { pose proof (elem_of_names_l _ _ _ Hin). pose proof (elem_of_names_r _ _ _ Hin).
      repeat split; intros ->; done. }
    rewrite !moved_lookup_other;
      [done|intros Heq; by apply (inj (resolve dir)) in Heq..].
Qed.

Lemma moves_text dir pairs t k c :
  moves dir pairs t !! k = Some c -> exists k', t !! k' = Some c.
Proof.
  revert t k. induction pairs as [|[s d] pairs IH]; intros t k Hk; [by exists k|].
  change (moves dir ((s, d) :: pairs) t)
    with (moves dir pairs (moved (resolve dir s) (resolve dir d) t)) in Hk.
  apply IH in Hk as [k1 Hk1]. by apply moved_text in Hk1.
Qed.

(** ** The first pass of the Renamer, as a whole *)

Lemma RENAMES_names_NoDup : NoDup (names RENAMES).
Proof. apply (bool_decide_unpack _). by vm_compute. Qed.


(** X1: a pair whose source exists and is moved, by [git mv] or, after
    [git mv] exits with an error, by the plain rename: the source is
    gone, the destination holds the text the source held, every other
    file is as it was, and the line [Renaming: src -> dest] is
    printed. *)
Theorem existing_source_is_moved e w src dest c :
  src <> dest ->
  tree w !! resolve (cwd w) src = Some c ->
  git_mv_answer e (tree w) (resolve (cwd w) src) (resolve (cwd w) dest) = GitMoved
  \/ (git_mv_answer e (tree w) (resolve (cwd w) src) (resolve (cwd w) dest)
        = GitExitNonZero /\
      rename_refused e (tree w) (resolve (cwd w) src) (resolve (cwd w) dest)
        = false) ->
  exists w',
    Renamer.rename_one e tt (src, dest) w = Returned tt w' /\
    tree w' !! resolve (cwd w) src = None /\
    tree w' !! resolve (cwd w) dest = Some c /\
    (forall k, k <> resolve (cwd w) src -> k <> resolve (cwd w) dest ->
               tree w' !! k = tree w !! k) /\
    stdout w' = stdout w ++ ["Renaming: " +:+ src +:+ " -> " +:+ dest].
Proof.
  intros Hsd Hsrc Hgit.
  assert (resolve (cwd w) src <> resolve (cwd w) dest) as Hkeys
    by (intros Heq; by apply Hsd, (inj (resolve (cwd w)))).
  assert (exists w', Renamer.rename_one e tt (src, dest) w = Returned tt w' /\
            tree w' = moved (resolve (cwd w) src) (resolve (cwd w) dest) (tree w) /\
            stdout w' = stdout w ++ ["Renaming: " +:+ src +:+ " -> " +:+ dest])
    as (w' & Hone & Htree & Hout).
  { destruct Hgit as [Hgit|[Hgit Hos]].
    - unfold Renamer.rename_one, bind, path_exists.
      rewrite Hsrc, bool_decide_true by by eexists.
      unfold print, try_except_CalledProcessError, git_mv. cbn.
      rewrite Hgit. by eexists.
    - rewrite (OsFacts.rename_one_fallback e w src dest c Hsrc Hgit Hos).
      eexists. split; [done|]. cbn. unfold moved. by rewrite Hsrc. }
  exists w'. split; [done|]. rewrite Htree. repeat split.
  - by apply moved_lookup_src.
  - by rewrite moved_lookup_dest, Hsrc.
  - intros k Hs Hd. by apply moved_lookup_other.
  - done.
Qed.

Lemma existing_source_is_moved_witness :
  (media_src <> media_dest /\
   tree (start "/repo" media_tree) !! resolve (cwd (start "/repo" media_tree)) media_src
     = Some "<div/>" /\
   (git_mv_answer git_moves (tree (start "/repo" media_tree))
      (resolve (cwd (start "/repo" media_tree)) media_src)
      (resolve (cwd (start "/repo" media_tree)) media_dest) = GitMoved
    \/ (git_mv_answer git_moves (tree (start "/repo" media_tree))
          (resolve (cwd (start "/repo" media_tree)) media_src)
          (resolve (cwd (start "/repo" media_tree)) media_dest) = GitExitNonZero /\
        rename_refused git_moves (tree (start "/repo" media_tree))
          (resolve (cwd (start "/repo" media_tree)) media_src)
          (resolve (cwd (start "/repo" media_tree)) media_dest) = false))) /\
  exists w',
    Renamer.rename_one git_moves tt (media_src, media_dest) (start "/repo" media_tree)
      = Returned tt w' /\
    tree w' !! resolve (cwd (start "/repo" media_tree)) media_src = None /\
    tree w' !! resolve (cwd (start "/repo" media_tree)) media_dest = Some "<div/>" /\
    (forall k, k <> resolve (cwd (start "/repo" media_tree)) media_src ->
               k <> resolve (cwd (start "/repo" media_tree)) media_dest ->
               tree w' !! k = tree (start "/repo" media_tree) !! k) /\
    stdout w' = stdout (start "/repo" media_tree)
                ++ ["Renaming: " +:+ media_src +:+ " -> " +:+ media_dest].
Proof.
  assert (media_src <> media_dest) as Hne by (by vm_compute).
  assert (tree (start "/repo" media_tree)
            !! resolve (cwd (start "/repo" media_tree)) media_src = Some "<div/>")
    as Hsrc by (vm_compute; reflexivity).
  split.
  - split; [exact Hne|]. split; [exact Hsrc|]. left. reflexivity.
  - apply (existing_source_is_moved git_moves (start "/repo" media_tree)
             media_src media_dest "<div/>" Hne Hsrc).
    left. reflexivity.
Defined.


(** X2: in an environment where [git mv] can be launched and no rename
    is refused, the first pass returns; afterwards no source of
    [RENAMES] exists, each destination holds the text its source held
    (and is as it was when the source was missing), and every file that
    [RENAMES] does not name is as it was. *)
Theorem first_pass_moves_every_existing_source e w :
  cooperative e ->
  exists w',
    Renamer.first_pass e w = Returned tt w' /\
    cwd w' = cwd w /\
    (forall src dest, (src, dest) ∈ RENAMES ->
       tree w' !! resolve (cwd w) src = None /\
       tree w' !! resolve (cwd w) dest =
         match tree w !! resolve (cwd w) src with
         | Some c => Some c
         | None => tree w !! resolve (cwd w) dest
         end) /\
    (forall k, k ∉ resolve (cwd w) <$> names RENAMES -> tree w' !! k = tree w !! k).
Proof.
  intros Hco.
  destruct (first_loop_cooperative e RENAMES w Hco) as (w' & Hrun & Hcwd & Htree).
  exists w'. split; [exact Hrun|]. split; [exact Hcwd|]. rewrite Htree. split.
  - intros src dest Hin. by apply moves_lookup_pair; [apply RENAMES_names_NoDup|].
  - intros k Hk. by apply moves_lookup_other.
Qed.

Lemma git_exits_cooperative : cooperative git_exits.
Proof. intros t a b. split; [discriminate | reflexivity]. Defined.

Lemma first_pass_moves_every_existing_source_witness :
  cooperative git_exits /\
  exists w',
    Renamer.first_pass git_exits (start "/repo" media_tree) = Returned tt w' /\
    cwd w' = cwd (start "/repo" media_tree) /\
    (forall src dest, (src, dest) ∈ RENAMES ->
       tree w' !! resolve (cwd (start "/repo" media_tree)) src = None /\
       tree w' !! resolve (cwd (start "/repo" media_tree)) dest =
         match tree (start "/repo" media_tree)
               !! resolve (cwd (start "/repo" media_tree)) src with
         | Some c => Some c
         | None => tree (start "/repo" media_tree)
                   !! resolve (cwd (start "/repo" media_tree)) dest
         end) /\
    (forall k, k ∉ resolve (cwd (start "/repo" media_tree)) <$> names RENAMES ->
               tree w' !! k = tree (start "/repo" media_tree) !! k).
Proof.
  split; [exact git_exits_cooperative|].
  apply (first_pass_moves_every_existing_source git_exits (start "/repo" media_tree)
           git_exits_cooperative).
Defined.

(** *** Whatever the environment *)

Lemma first_loop_frame e pairs w :
  cwd (final (for_each pairs (Renamer.rename_one e) tt w)) = cwd w /\
  (forall k, k ∉ resolve (cwd w) <$> names pairs ->
     tree (final (for_each pairs (Renamer.rename_one e) tt w)) !! k = tree w !! k) /\
  (forall k c,
     tree (final (for_each pairs (Renamer.rename_one e) tt w)) !! k = Some c ->
     exists k', tree w !! k' = Some c).
Proof.
  revert w. induction pairs as [|[s d] pairs IH]; intros w.
  { split; [done|]. split; [done|]. intros k c Hk. by exists k. }
  cbn [for_each]. unfold bind.
  pose proof (rename_one_tree e w s d) as [Hcwd Htree].
  destruct (Renamer.rename_one e tt (s, d) w) as [[] w1|ex w1] eqn:Hone;
    cbn [final] in Hcwd, Htree.
  - destruct (IH w1) as (Hc & Hframe & Htext). rewrite Hcwd in Hc, Hframe.
    split; [done|]. split.
    + intros k Hk.
      assert (k <> resolve (cwd w) s /\ k <> resolve (cwd w) d /\
              (k ∉ resolve (cwd w) <$> names pairs)) as (Hs & Hd & Hrest).
      { repeat split.
        - intros ->. apply Hk, list_elem_of_fmap. exists s.
          split; [done|]. apply names_cons. by left.
        - intros ->. apply Hk, list_elem_of_fmap. exists d.
          split; [done|]. apply names_cons. right. by left.
        - intros (x & -> & Hx)%list_elem_of_fmap. apply Hk, list_elem_of_fmap.
          exists x. split; [done|]. apply names_cons. right. by right. }
      rewrite Hframe by done.
      destruct Htree as [->| ->]; [done|]. by apply moved_lookup_other.
    + intros k c Hk. apply Htext in Hk as [k1 Hk1].
      destruct Htree as [Ht|Ht]; rewrite Ht in Hk1; [by exists k1|].
      by apply moved_text in Hk1.
  - cbn [final]. split; [done|]. split.
    + intros k Hk.
      destruct Htree as [->| ->]; [done|]. apply moved_lookup_other.
      * intros ->. apply Hk, list_elem_of_fmap. exists s.
        split; [done|]. apply names_cons. by left.
      * intros ->. apply Hk, list_elem_of_fmap. exists d.
        split; [done|]. apply names_cons. right. by left.
    + intros k c Hk. destruct Htree as [Ht|Ht]; rewrite Ht in Hk; [by exists k|].
      by apply moved_text in Hk.
Qed.

(** X3: whatever [git mv] and the system answer, and however the first
    pass ends, it stays in its directory, leaves every file that
    [RENAMES] does not name as it was, and every text in the tree
    afterwards is a text that was in the tree before: the pass edits
    no contents. *)
Theorem first_pass_touches_only_listed_names e w :
  cwd (final (Renamer.first_pass e w)) = cwd w /\
  (forall k, k ∉ resolve (cwd w) <$> names RENAMES ->
     tree (final (Renamer.first_pass e w)) !! k = tree w !! k) /\
  (forall k c,
     tree (final (Renamer.first_pass e w)) !! k = Some c ->
     exists k', tree w !! k' = Some c).
Proof. apply first_loop_frame. Qed.

(** ** The Renamer's run as a whole *)

(** [main] is the first pass from the world [renamer_started], then,
    when the first pass returns, the two lines and the second pass. *)
Lemma renamer_main_first_pass e file dir t :
  Renamer.main e file (start dir t) =
  match Renamer.first_pass e (renamer_started file dir t) with
  | Returned _ w1 =>
      Renamer.second_pass
        {| cwd := cwd w1; tree := tree w1;
           stdout := (stdout w1 ++ [Str.nl +:+ "✓ File renames complete!" +:+ Str.nl])
                     ++ ["Now updating imports in all files..." +:+ Str.nl];
           trace := trace w1 |}
  | Raised ex w1 => Raised ex w1
  end.
Proof.
  unfold Renamer.main, bind, chdir, print. cbn [cwd tree stdout trace start app].
  change {| cwd := enter dir (parent (parent file)); tree := t;
            stdout := ["Starting file renames..." +:+ Str.nl];
            trace := [Chdir (path_str (parent (parent file)))] |}
    with (renamer_started file dir t).
  by destruct (Renamer.first_pass e (renamer_started file dir t)).
Qed.

(** X4: a failure of a pair that is not caught (the launch of [git mv]
    fails, or [git mv] exits with an error and the plain rename is
    refused) ends the whole run with that error at that pair: the tree
    is the one the pairs before it left (their renames are not undone),
    and the pairs after it and the second pass do not run. *)
Theorem uncaught_failure_ends_run e file dir t pre src dest post w1 c :
  RENAMES = pre ++ (src, dest) :: post ->
  for_each pre (Renamer.rename_one e) tt (renamer_started file dir t)
    = Returned tt w1 ->
  tree w1 !! resolve (cwd w1) src = Some c ->
  git_mv_answer e (tree w1) (resolve (cwd w1) src) (resolve (cwd w1) dest)
    = GitNotStarted
  \/ (git_mv_answer e (tree w1) (resolve (cwd w1) src) (resolve (cwd w1) dest)
        = GitExitNonZero /\
      rename_refused e (tree w1) (resolve (cwd w1) src) (resolve (cwd w1) dest)
        = true) ->
  exists w2,
    Renamer.main e file (start dir t) = Raised OSError w2 /\
    tree w2 = tree w1 /\
    stdout w2 = stdout w1 ++ ["Renaming: " +:+ src +:+ " -> " +:+ dest] /\
    exists evs, trace w2 = trace w1 ++ Exists src :: GitMv src dest :: evs /\
                (evs = [] \/ evs = [Rename src dest]).
Proof.
  intros Hlist Hpre Hsrc Hfail.
  rewrite renamer_main_first_pass.
  rewrite (first_pass_at e pre (src, dest) post _ w1 Hlist Hpre).
  destruct Hfail as [Hgit|[Hgit Hos]].
  - rewrite (OsFacts.rename_one_not_started e w1 src dest c Hsrc Hgit).
    eexists. repeat split. cbn [trace]. exists []. by auto.
  - unfold Renamer.rename_one, bind, path_exists.
    rewrite Hsrc, bool_decide_true by by eexists.
    unfold print, try_except_CalledProcessError, git_mv. cbn.
    rewrite Hgit. unfold path_rename. cbn. rewrite Hsrc, Hos.
    eexists. repeat split. cbn [trace log]. exists [Rename src dest].
    split; [by rewrite <- !app_assoc | by auto].
Qed.

Lemma uncaught_failure_ends_run_witness :
  (RENAMES = [] ++ (media_src, media_dest) :: tail RENAMES /\
   for_each [] (Renamer.rename_one all_refused) tt
       (renamer_started renamer_script "/home" media_tree)
     = Returned tt (renamer_started renamer_script "/home" media_tree) /\
   tree (renamer_started renamer_script "/home" media_tree)
     !! resolve (cwd (renamer_started renamer_script "/home" media_tree)) media_src
     = Some "<div/>" /\
   (git_mv_answer all_refused (tree (renamer_started renamer_script "/home" media_tree))
      (resolve (cwd (renamer_started renamer_script "/home" media_tree)) media_src)
      (resolve (cwd (renamer_started renamer_script "/home" media_tree)) media_dest)
      = GitNotStarted
    \/ (git_mv_answer all_refused
          (tree (renamer_started renamer_script "/home" media_tree))
          (resolve (cwd (renamer_started renamer_script "/home" media_tree)) media_src)
          (resolve (cwd (renamer_started renamer_script "/home" media_tree)) media_dest)
          = GitExitNonZero /\
        rename_refused all_refused
          (tree (renamer_started renamer_script "/home" media_tree))
          (resolve (cwd (renamer_started renamer_script "/home" media_tree)) media_src)
          (resolve (cwd (renamer_started renamer_script "/home" media_tree)) media_dest)
          = true))) /\
  exists w2,
    Renamer.main all_refused renamer_script (start "/home" media_tree)
      = Raised OSError w2 /\
    tree w2 = tree (renamer_started renamer_script "/home" media_tree) /\
    stdout w2 = stdout (renamer_started renamer_script "/home" media_tree)
                ++ ["Renaming: " +:+ media_src +:+ " -> " +:+ media_dest] /\
    exists evs,
      trace w2 = trace (renamer_started renamer_script "/home" media_tree)
                 ++ Exists media_src :: GitMv media_src media_dest :: evs /\
      (evs = [] \/ evs = [Rename media_src media_dest]).
Proof.
  assert (tree (renamer_started renamer_script "/home" media_tree)
            !! resolve (cwd (renamer_started renamer_script "/home" media_tree))
                 media_src = Some "<div/>")
    as Hsrc by (vm_compute; reflexivity).
  split.
  - split; [reflexivity|]. split; [reflexivity|]. split; [exact Hsrc|].
    right. split; reflexivity.
  - apply (uncaught_failure_ends_run all_refused renamer_script "/home" media_tree
             [] media_src media_dest (tail RENAMES)
             (renamer_started renamer_script "/home" media_tree) "<div/>");
      [reflexivity | reflexivity | exact Hsrc | right; split; reflexivity].
Defined.






(** ** Which texts the content loops change *)

Lemma uppers_app l1 l2 : uppers (l1 ++ l2) = uppers l1 + uppers l2.
Proof. unfold uppers. by rewrite List.filter_app, length_app. Qed.

Lemma uppers_cons a l : uppers (a :: l) = uppers [a] + uppers l.
Proof. apply (uppers_app [a] l). Qed.

(** A replacement whose new token has no capital letter does not add
    one, and removes one when the old token has one and occurs. *)
Lemma replace_scan_uppers (old new s : list ascii) :
  old <> [] -> uppers new = 0 ->
  uppers (Text.replace_scan old new 0 s) <= uppers s /\
  (0 < uppers old -> Text.contains old s = true ->
   uppers (Text.replace_scan old new 0 s) < uppers s).
Proof.
  intros Hold Hnew.
  remember (length s) as n eqn:Hlen. revert s Hlen.
  induction (lt_wf n) as [n _ IH]. intros s ->.
  destruct s as [|c s]; [by destruct old|].
  destruct (Text.startswith old (c :: s)) eqn:Hm.
  - rewrite TextFacts.replace_scan_match by done.
    pose proof (TextFacts.startswith_drop _ _ Hm) as Hs.
    destruct (IH (length (drop (length old) (c :: s)))
                ltac:(rewrite length_drop; destruct old; [done|]; simpl; lia)
                _ eq_refl) as [Hle _].
    remember (drop (length old) (c :: s)) as s2 eqn:Hs2. clear Hs2.
    rewrite uppers_app, Hnew, Hs, uppers_app.
    split; [lia|]. intros Hup _. lia.
  - rewrite TextFacts.replace_scan_copy by done.
    destruct (IH (length s) ltac:(simpl; lia) s eq_refl) as [Hle Hlt].
    rewrite (uppers_cons c s), (uppers_cons c (Text.replace_scan _ _ _ _)).
    split; [lia|]. intros Hup Hc. cbn [Text.contains] in Hc.
    rewrite Hm in Hc. cbn in Hc. specialize (Hlt Hup Hc). lia.
Qed.

Lemma replace_uppers s old new :
  old <> "" -> uppers (Str.chars new) = 0 ->
  uppers (Str.chars (Str.replace s old new)) <= uppers (Str.chars s) /\
  (0 < uppers (Str.chars old) -> Str.contains old s = true ->
   uppers (Str.chars (Str.replace s old new)) < uppers (Str.chars s)).
Proof.
  intros Hold Hnew. unfold Str.replace, Str.contains.
  rewrite StrFacts.chars_of_chars. unfold Text.replace.
  destruct (Str.chars old) as [|o l] eqn:Ho.
  { by apply StrFacts.chars_nil in Ho. }
  by apply replace_scan_uppers.
Qed.

Lemma lowers_cons old new items :
  lowers ((old, new) :: items) = true ->
  old <> "" /\ 0 < uppers (Str.chars old) /\ uppers (Str.chars new) = 0 /\
  lowers items = true.
Proof.
  unfold lowers. cbn [forallb fst snd].
  rewrite !andb_true_iff, negb_true_iff, Nat.ltb_lt, Nat.eqb_eq.
  intros [[[Hne Hup] Hnew] Hrest]. repeat split; [|done..].
  intros ->. done.
Qed.

Lemma replace_all_uppers items text :
  lowers items = true ->
  uppers (Str.chars (Renamer.replace_all items text)) <= uppers (Str.chars text).
Proof.
  revert text. induction items as [|[old new] items IH]; intros text Hl; [done|].
  apply lowers_cons in Hl as (Hold & Hup & Hnew & Hl). cbn [Renamer.replace_all].
  etrans; [by apply IH|]. by apply replace_uppers.
Qed.

(** A text the loop leaves as it is holds no old token. *)
Lemma replace_all_fixed items text :
  lowers items = true ->
  Renamer.replace_all items text = text ->
  Forall (fun k => ~ Str.infix k text) (old_tokens items).
Proof.
  revert text. induction items as [|[old new] items IH]; intros text Hl Hfix.
  { constructor. }
  pose proof Hl as Hl0.
  apply lowers_cons in Hl as (Hold & Hup & Hnew & Hl).
  cbn [Renamer.replace_all] in Hfix.
  destruct (Str.contains old text) eqn:Hc.
  - exfalso.
    pose proof (replace_all_uppers items (Str.replace text old new) Hl) as Hle.
    destruct (replace_uppers text old new Hold Hnew) as [_ Hlt].
    specialize (Hlt Hup Hc). rewrite Hfix in Hle. lia.
  - rewrite StrFacts.str_replace_absent in Hfix by done.
    cbn [old_tokens map fst]. constructor.
    + by apply StrFacts.str_not_contains_infix.
    + by apply IH.
Qed.

Lemma replacements_lowers : lowers (Dict.items replacements) = true.
Proof. by vm_compute. Qed.

Lemma IMPORT_REPLACEMENTS_lowers : lowers (Dict.items IMPORT_REPLACEMENTS) = true.
Proof. by vm_compute. Qed.

Lemma replace_all_fixed_iff items text :
  lowers items = true ->
  Renamer.replace_all items text = text <->
  Forall (fun k => ~ Str.infix k text) (old_tokens items).
Proof.
  intros Hl. split; [by apply replace_all_fixed | apply LoopFacts.replace_all_absent].
Qed.

Lemma content_unchanged_iff_no_old_token_aux (text : string) :
  (Renamer.update_content text = text <->
   Forall (fun k => ~ Str.infix k text) (old_tokens (Dict.items replacements))) /\
  (Fixer.update_content text = text <->
   Forall (fun k => ~ Str.infix k text) (old_tokens (Dict.items IMPORT_REPLACEMENTS))).
Proof.
  split.
  - apply replace_all_fixed_iff, replacements_lowers.
  - unfold Fixer.update_content. rewrite LoopFacts.replace_present_all.
    apply replace_all_fixed_iff, IMPORT_REPLACEMENTS_lowers.
Qed.

(** X6: each script leaves a text as it is exactly when none of the old
    tokens of its table occurs in the text. *)
Theorem content_unchanged_iff_no_old_token (text : string) :
  (Renamer.update_content text = text <->
   Forall (fun k => ~ Str.infix k text) (old_tokens (Dict.items replacements))) /\
  (Fixer.update_content text = text <->
   Forall (fun k => ~ Str.infix k text) (old_tokens (Dict.items IMPORT_REPLACEMENTS))).
Proof. apply content_unchanged_iff_no_old_token_aux. Qed.

(** X7: neither script ever adds a capital letter [A]-[Z] to a text. *)
Theorem update_content_adds_no_capital (text : string) :
  uppers (Str.chars (Renamer.update_content text)) <= uppers (Str.chars text) /\
  uppers (Str.chars (Fixer.update_content text)) <= uppers (Str.chars text).
Proof.
  split.
  - apply replace_all_uppers, replacements_lowers.
  - unfold Fixer.update_content. rewrite LoopFacts.replace_present_all.
    apply replace_all_uppers, IMPORT_REPLACEMENTS_lowers.
Qed.





(** ** What the Import Fixer prints *)


(** ** The files the content loops touch *)



(** ** Run from anywhere *)

Lemma enter_absolute dir file :
  absolute file = true ->
  enter dir (parent (parent file)) = path_str (parent (parent file)).
Proof. intros Habs. unfold enter. cbn [parent absolute]. by rewrite Habs. Qed.

(** X11: when [__file__] is an absolute path, a run does not depend on
    the directory the script is started from: the outcome, the tree,
    the output and the calls are the same. *)
Theorem run_does_not_depend_on_starting_directory e file dir1 dir2 t :
  absolute file = true ->
  Renamer.main e file (start dir1 t) = Renamer.main e file (start dir2 t) /\
  Fixer.main file (start dir1 t) = Fixer.main file (start dir2 t).
Proof.
  intros Habs. split.
  - rewrite !renamer_main_first_pass. unfold renamer_started.
    by rewrite !enter_absolute.
  - rewrite !OsFacts.fixer_main_run. unfold fixer_started.
    by rewrite !enter_absolute.
Qed.

Lemma run_does_not_depend_on_starting_directory_witness :
  absolute renamer_script = true /\
  (Renamer.main git_exits renamer_script (start "/home" media_tree)
     = Renamer.main git_exits renamer_script (start "/tmp" media_tree) /\
   Fixer.main renamer_script (start "/home" media_tree)
     = Fixer.main renamer_script (start "/tmp" media_tree)).
Proof.
  split; [reflexivity|].
  apply (run_does_not_depend_on_starting_directory git_exits renamer_script
           "/home" "/tmp" media_tree).
  reflexivity.
Defined.

(** ** The Renamer's rewriting, applied twice *)

(** X12: unlike the Import Fixer's, the Renamer's rewriting is not
    idempotent: there is a text whose rewritten form is rewritten again
    by a second application. *)
Theorem renamer_update_content_not_idempotent :
  exists text,
    Renamer.update_content (Renamer.update_content text)
    <> Renamer.update_content text.
Proof. exists "IFrame.tSlashCommandList.svelte". by vm_compute. Qed.

(** ** Dictionary literals *)

Lemma dict_set_fresh d k v :
  k ∉ map fst d -> Dict.set d k v = d ++ [(k, v)].
Proof.
  induction d as [|[k' v'] d IH]; intros Hk; [done|].
  cbn [map fst] in Hk. apply not_elem_of_cons in Hk as [Hne Hk].
  cbn [Dict.set]. destruct (String.eqb_spec k' k) as [->|_]; [done|].
  by rewrite IH.
Qed.

Lemma dict_set_keys d k v :
  map fst (Dict.set d k v) = if bool_decide (k ∈ map fst d) then map fst d
                             else map fst d ++ [k].
Proof.
  induction d as [|[k' v'] d IH]; [done|].
  cbn [Dict.set map fst]. destruct (String.eqb_spec k' k) as [->|Hne].
  - rewrite bool_decide_true by left. done.
  - cbn [map fst]. rewrite IH. case_bool_decide as Hin.
    + rewrite bool_decide_true by by right. done.
    + rewrite bool_decide_false; [done|].
      intros [->|?]%elem_of_cons; done.
Qed.

Lemma dict_fold_fresh entries d :
  NoDup (map fst d ++ map fst entries) ->
  fold_left (fun d e => Dict.set d (fst e) (snd e)) entries d = d ++ entries.
Proof.
  revert d. induction entries as [|[k v] entries IH]; intros d Hnd.
  { by rewrite app_nil_r. }
  cbn [fold_left fst snd map] in *.
  apply NoDup_app in Hnd as (Hd & Hdisj & Hrest).
  apply NoDup_cons in Hrest as [Hk Hrest].
  rewrite dict_set_fresh by (intros Hin; apply (Hdisj k Hin); by left).
  rewrite IH; [by rewrite <- app_assoc|].
  rewrite map_app. cbn [map fst]. rewrite <- app_assoc. cbn [app].
  apply NoDup_app. repeat split; [done| |by apply NoDup_cons].
  intros x Hx [->|Hx']%elem_of_cons.
  - apply (Hdisj k Hx). by left.
  - apply (Hdisj x Hx). by right.
Qed.

Lemma dict_fold_keys entries d :
  NoDup (map fst d) ->
  NoDup (map fst (fold_left (fun d e => Dict.set d (fst e) (snd e)) entries d)) /\
  forall k, k ∈ map fst (fold_left (fun d e => Dict.set d (fst e) (snd e)) entries d)
            <-> k ∈ map fst d \/ k ∈ map fst entries.
Proof.
  revert d. induction entries as [|[k0 v0] entries IH]; intros d Hnd.
  { split; [done|]. intros k. cbn. rewrite elem_of_nil. tauto. }
  cbn [fold_left fst snd].
  assert (NoDup (map fst (Dict.set d k0 v0)) /\
          forall k, k ∈ map fst (Dict.set d k0 v0) <-> k ∈ map fst d \/ k = k0)
    as [Hnd' Hkeys].
  { rewrite dict_set_keys. case_bool_decide as Hin.
    - split; [done|]. intros k. split; [by left|]. by intros [?| ->].
    - split.
      + apply NoDup_app. repeat split; [done| |apply NoDup_singleton].
        intros x Hx ->%list_elem_of_singleton. done.
      + intros k. by rewrite elem_of_app, list_elem_of_singleton. }
  destruct (IH _ Hnd') as [Hres Hmem]. split; [done|].
  intros k. rewrite Hmem, Hkeys. cbn [map fst]. rewrite elem_of_cons. tauto.
Qed.

(** X13: a dictionary literal whose keys are all different iterates
    over its entries in the order they are written. *)
Theorem dict_literal_keeps_listed_order (entries : list (string * string)) :
  NoDup (map fst entries) -> Dict.items (Dict.literal entries) = entries.
Proof.
  intros Hnd. unfold Dict.items, Dict.literal. by rewrite dict_fold_fresh.
Qed.

Lemma dict_literal_keeps_listed_order_witness :
  NoDup (map fst IMPORT_REPLACEMENTS_listed) /\
  Dict.items (Dict.literal IMPORT_REPLACEMENTS_listed) = IMPORT_REPLACEMENTS_listed.
Proof.
  assert (NoDup (map fst IMPORT_REPLACEMENTS_listed)) as Hnd
    by (apply (bool_decide_unpack _); by vm_compute).
  split; [exact Hnd|].
  apply (dict_literal_keeps_listed_order IMPORT_REPLACEMENTS_listed Hnd).
Defined.

(** X14: whatever the entries of a dictionary literal, no key comes
    twice when it is iterated, and the keys are those of the entries. *)
Theorem dict_literal_keys_distinct (entries : list (string * string)) :
  NoDup (map fst (Dict.items (Dict.literal entries))) /\
  forall k, k ∈ map fst (Dict.items (Dict.literal entries)) <-> k ∈ map fst entries.
Proof.
  unfold Dict.items, Dict.literal.
  destruct (dict_fold_keys entries [] (NoDup_nil_2)) as [Hnd Hmem].
  split; [done|]. intros k. rewrite Hmem. cbn [map]. rewrite elem_of_nil. tauto.
Qed.

(** ** Running the Renamer again *)

Lemma first_loop_all_missing e pairs w :
  (forall s d, (s, d) ∈ pairs -> tree w !! resolve (cwd w) s = None) ->
  for_each pairs (Renamer.rename_one e) tt w =
  Returned tt
    {| cwd := cwd w; tree := tree w;
       stdout := stdout w ++ map (fun p => "Warning: File not found: " +:+ fst p) pairs;
       trace := trace w ++ map (fun p => Exists (fst p)) pairs |}.
Proof.
  revert w. induction pairs as [|[s d] pairs IH]; intros w Hmiss.
  { cbn. f_equal. apply OsFacts.world_eq; cbn; by rewrite ?app_nil_r. }
  cbn [for_each]. unfold bind.
  rewrite (OsFacts.rename_one_missing e w s d) by (apply (Hmiss s d); by left).
  rewrite IH by (intros s' d' Hin; apply (Hmiss s' d'); by right).
  f_equal. apply OsFacts.world_eq; cbn; by rewrite <- ?app_assoc.
Qed.

(** X15: when no source of [RENAMES] exists, the first pass returns
    having printed one warning for each pair, in order; the tree is as
    it was and the only calls made are the 40 tests for existence. *)
Theorem first_pass_with_no_source_only_warns e w :
  (forall src dest, (src, dest) ∈ RENAMES -> tree w !! resolve (cwd w) src = None) ->
  Renamer.first_pass e w =
  Returned tt
    {| cwd := cwd w; tree := tree w;
       stdout := stdout w
                 ++ map (fun p => "Warning: File not found: " +:+ fst p) RENAMES;
       trace := trace w ++ map (fun p => Exists (fst p)) RENAMES |}.
Proof. apply first_loop_all_missing. Qed.

Lemma editor_tree_has_no_source src dest :
  (src, dest) ∈ RENAMES ->
  tree (start "/repo" editor_tree) !! resolve (cwd (start "/repo" editor_tree)) src
  = None.
Proof.
  intros Hin.
  assert (forallb (fun p : string * string =>
                     bool_decide (tree (start "/repo" editor_tree)
                                    !! resolve (cwd (start "/repo" editor_tree)) (fst p)
                                  = None)) RENAMES = true)
    as Hall by (by vm_compute).
  rewrite forallb_forall in Hall.
  apply (proj1 (bool_decide_eq_true _)), (Hall (src, dest)).
  by apply list_elem_of_In.
Defined.

Lemma first_pass_with_no_source_only_warns_witness :
  (forall src dest, (src, dest) ∈ RENAMES ->
     tree (start "/repo" editor_tree)
       !! resolve (cwd (start "/repo" editor_tree)) src = None) /\
  Renamer.first_pass no_git (start "/repo" editor_tree) =
  Returned tt
    {| cwd := cwd (start "/repo" editor_tree);
       tree := tree (start "/repo" editor_tree);
       stdout := stdout (start "/repo" editor_tree)
                 ++ map (fun p => "Warning: File not found: " +:+ fst p) RENAMES;
       trace := trace (start "/repo" editor_tree)
                ++ map (fun p => Exists (fst p)) RENAMES |}.
Proof.
  split; [exact editor_tree_has_no_source|].
  apply (first_pass_with_no_source_only_warns no_git (start "/repo" editor_tree)
           editor_tree_has_no_source).
Defined.



(** ** Literal replacement *)

(** X17: for a non-empty [old] and a token [k] such that no occurrence
    of [k] can share a character with an inserted [new] ([clear_of]):
    [s.replace(old, new)] does not hold [k] when [k] is [old] itself,
    or when [s] did not hold [k]. *)
Theorem replace_leaves_no_occurrence_when_clear s old new k :
  old <> "" -> Str.clear_of k new = true ->
  k = old \/ ~ Str.infix k s ->
  ~ Str.infix k (Str.replace s old new).
Proof.
  intros Hold Hclear [->|Hk].
  - by apply StrFacts.str_replace_eliminates.
  - by apply StrFacts.str_replace_creates_no.
Qed.

Lemma replace_leaves_no_occurrence_when_clear_witness :
  ("Menu.svelte" <> "" /\
   Str.clear_of "Menu.svelte" "menu.svelte" = true /\
   ("Menu.svelte" = "Menu.svelte"
    \/ ~ Str.infix "Menu.svelte" "import Menu from './Menu.svelte'")) /\
  ~ Str.infix "Menu.svelte"
      (Str.replace "import Menu from './Menu.svelte'" "Menu.svelte" "menu.svelte").
Proof.
  assert ("Menu.svelte" <> "") as Hne by discriminate.
  assert (Str.clear_of "Menu.svelte" "menu.svelte" = true) as Hclear
    by (vm_compute; reflexivity).
  split.
  - split; [exact Hne|]. split; [exact Hclear|]. left. reflexivity.
  - apply (replace_leaves_no_occurrence_when_clear
             "import Menu from './Menu.svelte'" "Menu.svelte" "menu.svelte"
             "Menu.svelte" Hne Hclear).
    left. reflexivity.
Defined.

(** ** The project root *)

Lemma removelast_snoc {X} (l : list X) x : removelast (l ++ [x]) = l.
Proof. by rewrite removelast_last. Qed.

(** X18: for a script at [<root>/<dir>/<name>] the directory the
    scripts enter is [<root>]: with an absolute [__file__] it is
    [/<root>] wherever the script was started, with a relative one
    (and a non-empty [<root>]) it is [<root>] below the starting
    directory. *)
Theorem project_root_is_two_levels_up abs rootparts d n dir :
  parent (parent {| absolute := abs; parts := rootparts ++ [d; n] |})
    = {| absolute := abs; parts := rootparts |} /\
  enter dir (parent (parent {| absolute := abs; parts := rootparts ++ [d; n] |}))
    = if abs then "/" +:+ join "/" rootparts
      else match rootparts with
           | [] => dir
           | _ => dir +:+ "/" +:+ join "/" rootparts
           end.
Proof.
  assert (parent (parent {| absolute := abs; parts := rootparts ++ [d; n] |})
          = {| absolute := abs; parts := rootparts |}) as Hroot.
  { unfold parent. cbn [absolute parts]. f_equal.
    change [d; n] with ([d] ++ [n]).
    by rewrite app_assoc, !removelast_snoc. }
  split; [exact Hroot|]. rewrite Hroot. unfold enter, path_str, resolve.
  cbn [absolute parts]. destruct abs; [done|]. by destruct rootparts.
Qed.
